(** * TWCC usage Slack bot: the squeue parser and the report builder

    A shallow embedding of [main.py]: [parse_squeue_output], [get_formatters]
    and [get_blocks], with the Python built-ins they rely on ([str.strip],
    [str.split], [zip], [dict], [itertools.groupby], [time.strftime]).

    Conventions.
    - A Python [str] is the Rocq [string] of its UTF-8 encoding (this is what
      [process.stdout.decode()] is a bijective view of).  Splitting on an
      ASCII separator, concatenation, emptiness and equality are the same on
      code points and on their encoding.
    - A Python [dict] is an association list in insertion order without
      repeated keys; assigning to a key that is present replaces the value
      and keeps the position.
    - A Python exception is a value [Raise e] of the [result] type. *)

From Stdlib Require Import List String Ascii Bool Arith Lia.
Import ListNotations.
Open Scope string_scope.

(** ** Exceptions *)

Inductive exception : Type :=
| KeyError (key : string)
| IndexError
| UnicodeDecodeError.

Inductive result (A : Type) : Type :=
| Ok (a : A)
| Raise (e : exception).
Arguments Ok {A} a.
Arguments Raise {A} e.

Definition bind {A B} (m : result A) (k : A -> result B) : result B :=
  match m with
  | Ok a => k a
  | Raise e => Raise e
  end.

Notation "x <- m ;; k" := (bind m (fun x => k))
  (at level 61, m at next level, right associativity).

(** [[f(x) for x in l]]: the elements are evaluated from left to right and
    the first exception ends the comprehension. *)
Fixpoint mapM {A B} (f : A -> result B) (l : list A) : result (list B) :=
  match l with
  | [] => Ok []
  | x :: l' => y <- f x ;; ys <- mapM f l' ;; Ok (y :: ys)
  end.

(** ** Strings *)

Definition byte_in (lo hi : nat) (c : ascii) : bool :=
  ((lo <=? nat_of_ascii c) && (nat_of_ascii c <=? hi))%nat.

(** The white space of [str.strip()] ([Py_UNICODE_ISSPACE]): the ASCII
    characters 09-0D, 1C-1F and 20 ... *)
Definition is_space1 (c : ascii) : bool :=
  byte_in 9 13 c || byte_in 28 32 c.

(** ... U+0085 and U+00A0, encoded on two bytes ... *)
Definition is_space2 (c1 c2 : ascii) : bool :=
  ((nat_of_ascii c1 =? 194)
   && ((nat_of_ascii c2 =? 133) || (nat_of_ascii c2 =? 160)))%nat.

(** ... and U+1680, U+2000-U+200A, U+2028, U+2029, U+202F, U+205F, U+3000,
    encoded on three bytes. *)
Definition is_space3 (c1 c2 c3 : ascii) : bool :=
  let n1 := nat_of_ascii c1 in
  let n2 := nat_of_ascii c2 in
  let n3 := nat_of_ascii c3 in
  (((n1 =? 225) && (n2 =? 154) && (n3 =? 128))
   || ((n1 =? 226) && (n2 =? 128)
       && (byte_in 128 138 c3 || (n3 =? 168) || (n3 =? 169) || (n3 =? 175)))
   || ((n1 =? 226) && (n2 =? 129) && (n3 =? 159))
   || ((n1 =? 227) && (n2 =? 128) && (n3 =? 128)))%nat.

(** [s.lstrip()] *)
Fixpoint lstrip (s : string) : string :=
  match s with
  | EmptyString => s
  | String c1 s1 =>
      if is_space1 c1 then lstrip s1
      else
        match s1 with
        | EmptyString => s
        | String c2 s2 =>
            if is_space2 c1 c2 then lstrip s2
            else
              match s2 with
              | EmptyString => s
              | String c3 s3 => if is_space3 c1 c2 c3 then lstrip s3 else s
              end
        end
  end.

(** A string of white space only. *)
Definition is_blank (s : string) : bool :=
  match lstrip s with
  | EmptyString => true
  | String _ _ => false
  end.

(** [s.rstrip()]: the longest blank suffix is cut. *)
Fixpoint rstrip (s : string) : string :=
  match s with
  | EmptyString => EmptyString
  | String c s' => if is_blank s then EmptyString else String c (rstrip s')
  end.

(** [s.strip()] *)
Definition strip (s : string) : string := rstrip (lstrip s).

(** [s.split(sep)] for a separator of one character: the pieces between the
    occurrences of [sep]; never an empty list ([''.split('|') == ['']]). *)
Fixpoint split (sep : ascii) (s : string) : list string :=
  match s with
  | EmptyString => [EmptyString]
  | String c s' =>
      if Ascii.eqb c sep then EmptyString :: split sep s'
      else
        match split sep s' with
        | piece :: pieces => String c piece :: pieces
        | [] => [String c EmptyString]
        end
  end.

Definition newline : ascii := "010"%char.
Definition pipe : ascii := "|"%char.

(** ** Sequences *)

(** [l[0]] *)
Definition first_item {A} (l : list A) : result A :=
  match l with
  | x :: _ => Ok x
  | [] => Raise IndexError
  end.

(** [l[1:]] *)
Definition from_second {A} (l : list A) : list A := tl l.

(** [zip(xs, ys)]: pairs by position, as many as the shorter argument has. *)
Definition zip {A B} (xs : list A) (ys : list B) : list (A * B) := combine xs ys.

(** ** Dictionaries *)

Definition dict : Type := list (string * string).

(** [k in d] *)
Fixpoint dict_mem (d : dict) (k : string) : bool :=
  match d with
  | [] => false
  | (k', _) :: d' => if String.eqb k' k then true else dict_mem d' k
  end.

(** [d.get(k)]: [None] when the key is absent. *)
Fixpoint dict_get (d : dict) (k : string) : option string :=
  match d with
  | [] => None
  | (k', v) :: d' => if String.eqb k' k then Some v else dict_get d' k
  end.

(** [d[k]] *)
Definition dict_item (d : dict) (k : string) : result string :=
  match dict_get d k with
  | Some v => Ok v
  | None => Raise (KeyError k)
  end.

(** [d[k] = v] *)
Fixpoint dict_set (d : dict) (k v : string) : dict :=
  match d with
  | [] => [(k, v)]
  | (k', v') :: d' =>
      if String.eqb k' k then (k', v) :: d' else (k', v') :: dict_set d' k v
  end.

(** [{k: v for k, v in pairs}] *)
Definition dict_of (pairs : list (string * string)) : dict :=
  fold_left (fun d kv => dict_set d (fst kv) (snd kv)) pairs [].

(** The dictionary comprehension as a left fold from any dictionary. *)
Definition dict_update (d : dict) (pairs : list (string * string)) : dict :=
  fold_left (fun d kv => dict_set d (fst kv) (snd kv)) pairs d.

(** The value of the last pair with key [k]. *)
Fixpoint assoc_last (pairs : list (string * string)) (k : string)
  : option string :=
  match pairs with
  | [] => None
  | (k', v) :: pairs' =>
      match assoc_last pairs' k with
      | Some v' => Some v'
      | None => if String.eqb k' k then Some v else None
      end
  end.

(** [d.keys()] and [d.items()] *)
Definition dict_keys (d : dict) : list string := map fst d.
Definition dict_items (d : dict) : list (string * string) := d.

(** The representation invariant of a dictionary. *)
Definition dict_wf (d : dict) : Prop := NoDup (dict_keys d).

(** ** The parser *)

Definition Job : Type := dict.

(** One iteration of the loop of [parse_squeue_output]:
    [{k: v for k, v in zip(header, l.split('|'))}]. *)
Definition parse_line (header : list string) (l : string) : Job :=
  dict_of (zip header (split pipe l)).

Definition parse_squeue_output (output : string) : result (list Job) :=
  let lines := split newline (strip output) in
  line0 <- first_item lines ;;
  let header := split pipe line0 in
  Ok (map (parse_line header) (from_second lines)).

(** ** Slack blocks

    The dictionaries that [get_blocks] builds have four shapes:
    [{"type": "header", "text": t}], [{"type": "section", "text": t}],
    [{"type": "section", "fields": [t, ...]}] and [{"type": "divider"}],
    where a text object [t] is [{"type": "plain_text", "text": s, "emoji": b}]
    or [{"type": "mrkdwn", "text": s}]. *)

Inductive text_object : Type :=
| plain_text (text : string) (emoji : bool)
| mrkdwn (text : string).

Inductive block : Type :=
| header (text : text_object)
| section (text : text_object)
| section_fields (fields : list text_object)
| divider.

(** ** The clock

    [time.strftime(format)] formats [time.localtime()], which the model takes
    as an argument. *)

Record struct_time : Type := {
  tm_year : nat;
  tm_mon : nat;
  tm_mday : nat;
  tm_hour : nat;
  tm_min : nat;
  tm_sec : nat
}.

Definition digit (n : nat) : ascii := ascii_of_nat (48 + n mod 10).

(** The decimal digits of [n], the most significant first; [fuel] bounds
    their number. *)
Fixpoint decimal_digits (fuel n : nat) (acc : string) : string :=
  match fuel with
  | 0 => acc
  | S fuel' =>
      let acc' := String (digit n) acc in
      if (n <? 10)%nat then acc' else decimal_digits fuel' (n / 10) acc'
  end.

(** [%Y]: the year as a decimal number. *)
Definition fmt_Y (n : nat) : string := decimal_digits (S n) n EmptyString.

(** [%m], [%d], [%H], [%M], [%S]: a number below 100 on two digits. *)
Definition fmt_2 (n : nat) : string :=
  String (digit (n / 10)) (String (digit n) EmptyString).

(** [time.strftime('%Y/%m/%d %H:%M:%S')] *)
Definition strftime (t : struct_time) : string :=
  fmt_Y (tm_year t) ++ "/" ++ fmt_2 (tm_mon t) ++ "/" ++ fmt_2 (tm_mday t)
  ++ " " ++ fmt_2 (tm_hour t) ++ ":" ++ fmt_2 (tm_min t) ++ ":" ++ fmt_2 (tm_sec t).

(** ** [itertools.groupby]

    [for k, g in groupby(l, key): before; for x in g: body; after] over a
    loop state [S].  The iterator is lazy: the key of an element is computed
    when the element is reached, after the body has run on the one before;
    a key unequal to the key of the running group ends that group ([after]),
    and opens the next one ([before]).  [tgtkey] is the key of the running
    group, [None] before the first element. *)

Section Groupby.
Context {A S : Type}.
Variable key : A -> result string.
Variable before : string -> S -> result S.
Variable body : A -> S -> result S.
Variable after : S -> result S.

Definition in_group (tgtkey : option string) (k : string) : bool :=
  match tgtkey with
  | Some k0 => String.eqb k0 k
  | None => false
  end.

Definition end_group (tgtkey : option string) (s : S) : result S :=
  match tgtkey with
  | Some _ => after s
  | None => Ok s
  end.

Fixpoint for_groupby (tgtkey : option string) (l : list A) (s : S)
  : result S :=
  match l with
  | [] => end_group tgtkey s
  | x :: l' =>
      k <- key x ;;
      if in_group tgtkey k then
        s <- body x s ;;
        for_groupby (Some k) l' s
      else
        s <- end_group tgtkey s ;;
        s <- before k s ;;
        s <- body x s ;;
        for_groupby (Some k) l' s
  end.
End Groupby.

(** The groups that [groupby] yields, as a list: the maximal runs of
    neighbours with equal keys, each with its key. *)
Fixpoint groupby {A} (l : list (string * A)) : list (string * list A) :=
  match l with
  | [] => []
  | (k, x) :: l' =>
      match groupby l' with
      | (k', g) :: gs =>
          if String.eqb k k' then (k, x :: g) :: gs
          else (k, [x]) :: (k', g) :: gs
      | [] => [(k, [x])]
      end
  end.

(** The groups of a list under a key function. *)
Definition keyed {A} (key : A -> string) (l : list A)
  : list (string * list A) :=
  groupby (map (fun x => (key x, x)) l).
Arguments keyed : simpl never.

(** The nested loops over these groups, when nothing raises: for each
    group [before], then [body] on each of its elements, then [after]. *)
Section Loops.
Context {A S : Type}.
Variable before : string -> S -> S.
Variable body : A -> S -> S.
Variable after : S -> S.

Definition run_group (s : S) (kg : string * list A) : S :=
  after (fold_left (fun s x => body x s) (snd kg) (before (fst kg) s)).

Definition run_groups (gs : list (string * list A)) (s : S) : S :=
  fold_left run_group gs s.

(** The loops resumed inside a group of key [k0], already opened. *)
Definition resume (k0 : string) (gs : list (string * list A)) (s : S) : S :=
  match gs with
  | [] => after s
  | (k, g) :: gs' =>
      if String.eqb k0 k
      then run_groups gs' (after (fold_left (fun s x => body x s) g s))
      else run_groups gs (after s)
  end.
End Loops.

(** ** The formatters and the report *)

Record Config : Type := {
  project_map : dict;
  user_map : dict
}.

(** ASCII letters to upper case; the other bytes are kept. *)
Definition ascii_upper_char (c : ascii) : ascii :=
  if byte_in 97 122 c then ascii_of_nat (nat_of_ascii c - 32) else c.

Fixpoint ascii_upper (s : string) : string :=
  match s with
  | EmptyString => EmptyString
  | String c s' => String (ascii_upper_char c) (ascii_upper s')
  end.

Section Report.
(** [str.upper]: the development holds for every function on strings; on
    ASCII text it is [ascii_upper]. *)
Variable upper : string -> string.

Definition get_simple_formmatter (display_name field_name : string)
  : Job -> result string :=
  fun j =>
    v <- dict_item j field_name ;;
    Ok (display_name ++ "：" ++ v).

(** [x in m] then [f'{x}({m[x]})'], else [x]. *)
Definition with_label (m : dict) (x : string) : result string :=
  if dict_mem m x then
    l <- dict_item m x ;;
    Ok (x ++ "(" ++ l ++ ")")
  else Ok x.

Definition upper_keys (m : dict) : dict :=
  dict_of (map (fun kv => (upper (fst kv), snd kv)) (dict_items m)).

Definition project_formatter (config : Config) (job : Job) : result string :=
  let pm := upper_keys (project_map config) in
  x <- dict_item job "ACCOUNT" ;;
  let x := upper x in
  x <- with_label pm x ;;
  Ok ("📜 計畫ID：" ++ x).

Definition user_formatter (config : Config) (job : Job) : result string :=
  let um := user_map config in
  x <- dict_item job "USER" ;;
  x <- with_label um x ;;
  Ok ("🤪 使用者ID：" ++ x).

Definition get_formatters (config : Config) : list (Job -> result string) :=
  [ get_simple_formmatter "🪪 任務ID" "JOBID";
    get_simple_formmatter "🛠️ 任務名稱" "NAME";
    get_simple_formmatter "⚓ 分區名稱" "PARTITION";
    get_simple_formmatter "🖥️ 節點數量" "NODES";
    get_simple_formmatter "⏱ 開始時間" "START_TIME";
    get_simple_formmatter "⏳ 運行時間" "TIME";
    project_formatter config;
    user_formatter config ].

(** [a or b] on strings *)
Definition str_or (a b : string) : string :=
  match a with
  | EmptyString => b
  | String _ _ => a
  end.

(** The three blocks that open the report. *)
Definition first_blocks (now : struct_time) : list block :=
  [ header (plain_text "📋 TWCC HPC 任務例行檢查" true);
    section (mrkdwn ("⌚ 檢查時間： *" ++ strftime now ++ "*"));
    divider ].

(** The key of the grouping: [lambda x: x['USER']]. *)
Definition user_key (x : Job) : result string := dict_item x "USER".

(** The body of the loop over the groups, before its inner loop. *)
Definition group_header (config : Config) (user : string) (blocks : list block)
  : result (list block) :=
  let um := user_map config in
  user <- with_label um user ;;
  Ok (blocks
      ++ [section (mrkdwn ("🤪 *" ++ user ++ "* 有以下任務正在運行："))])%list.

(** The body of the inner loop, over the jobs of a group. *)
Definition job_body (config : Config) (job : Job) (blocks : list block)
  : result (list block) :=
  let formatters := get_formatters config in
  name <- dict_item job "NAME" ;;
  let blocks :=
    (blocks ++ [section (mrkdwn ("🛠️ *" ++ str_or name "_未命名_" ++ "*"))])%list in
  fields <- mapM (fun formatter =>
                    text <- formatter job ;;
                    Ok (plain_text text true)) formatters ;;
  Ok (blocks ++ [section_fields fields])%list.

(** The body of the loop over the groups, after its inner loop. *)
Definition group_footer (blocks : list block) : result (list block) :=
  Ok (blocks ++ [divider])%list.

Definition get_blocks (now : struct_time) (jobs : list Job) (config : Config)
  : result (list block) :=
  let blocks := first_blocks now in
  for_groupby user_key (group_header config) (job_body config) group_footer
    None jobs blocks.

End Report.

(** ** The report as the specification describes it

    The presentation tree of the specification: user groups holding job
    nodes, assembled after a header and a divider.  These definitions read
    the fields of complete records; the theorems below relate them to
    [get_blocks]. *)

(** The fields that [get_blocks] reads in every record, in the order in
    which it reads them. *)
Definition report_fields : list string :=
  ["USER"; "NAME"; "JOBID"; "PARTITION"; "NODES"; "START_TIME"; "TIME";
   "ACCOUNT"].

Definition complete_job (j : Job) : bool := forallb (dict_mem j) report_fields.

(** The value of a field that is present. *)
Definition field (j : Job) (k : string) : string :=
  match dict_get j k with
  | Some v => v
  | None => EmptyString
  end.

(** The display names and field names of the six simple annotators. *)
Definition simple_fields : list (string * string) :=
  [ ("🪪 任務ID", "JOBID");
    ("🛠️ 任務名稱", "NAME");
    ("⚓ 分區名稱", "PARTITION");
    ("🖥️ 節點數量", "NODES");
    ("⏱ 開始時間", "START_TIME");
    ("⏳ 運行時間", "TIME") ].

(** An identifier with its label, when the table has one. *)
Definition labelled (m : dict) (x : string) : string :=
  match dict_get m x with
  | Some l => x ++ "(" ++ l ++ ")"
  | None => x
  end.

Record JobNode : Type := {
  job_title : string;
  job_fields : list string
}.

Record UserGroup : Type := {
  group_label : string;
  group_jobs : list JobNode
}.

Section Specification.
Variable upper : string -> string.
Variable config : Config.

Definition simple_annotator (display_name field_name : string) (j : Job)
  : string :=
  display_name ++ "：" ++ field j field_name.

Definition project_annotator (j : Job) : string :=
  "📜 計畫ID：" ++ labelled (upper_keys upper (project_map config))
                        (upper (field j "ACCOUNT")).

Definition user_annotator (j : Job) : string :=
  "🤪 使用者ID：" ++ labelled (user_map config) (field j "USER").

(** The eight annotators in their enumeration order. *)
Definition annotators : list (Job -> string) :=
  (map (fun df => simple_annotator (fst df) (snd df)) simple_fields
   ++ [project_annotator; user_annotator])%list.

Definition job_node (j : Job) : JobNode :=
  {| job_title := str_or (field j "NAME") "_未命名_";
     job_fields := map (fun a => a j) annotators |}.

(** The records grouped by user: runs of neighbours. *)
Definition user_groups (jobs : list Job) : list (string * list Job) :=
  groupby (map (fun j => (field j "USER", j)) jobs).

Definition group_node (g : string * list Job) : UserGroup :=
  {| group_label := labelled (user_map config) (fst g);
     group_jobs := map job_node (snd g) |}.

(** GroupingReportBuilder *)
Definition build (jobs : list Job) : list UserGroup :=
  map group_node (user_groups jobs).

Definition job_node_blocks (n : JobNode) : list block :=
  [ section (mrkdwn ("🛠️ *" ++ job_title n ++ "*"));
    section_fields (map (fun s => plain_text s true) (job_fields n)) ].

Definition user_group_blocks (g : UserGroup) : list block :=
  (section (mrkdwn ("🤪 *" ++ group_label g ++ "* 有以下任務正在運行："))
   :: flat_map job_node_blocks (group_jobs g) ++ [divider])%list.

(** ReportAssembler *)
Definition assemble (groups : list UserGroup) (now : struct_time)
  : list block :=
  (first_blocks now ++ flat_map user_group_blocks groups)%list.
End Specification.

(** The position of the group of each record: the records of the first
    group get [n], those of the second [S n], and so on. *)
Fixpoint group_ids {A} (n : nat) (gs : list (string * list A)) : list nat :=
  match gs with
  | [] => []
  | (_, g) :: gs' => (repeat n (List.length g) ++ group_ids (S n) gs')%list
  end.

(** The group in which [get_blocks] puts the record at position [i]. *)
Definition group_of (jobs : list Job) (i : nat) : option nat :=
  nth_error (group_ids 0 (user_groups jobs)) i.

(** The blocks that end a job node. *)
Definition is_fields_block (b : block) : bool :=
  match b with
  | section_fields _ => true
  | _ => false
  end.

Definition count_job_nodes (blocks : list block) : nat :=
  List.length (filter is_fields_block blocks).

Definition is_digit (c : ascii) : bool := byte_in 48 57 c.

(** The user of the record at position [i]. *)
Definition user_at (jobs : list Job) (i : nat) : option string :=
  option_map (fun j => field j "USER") (nth_error jobs i).

(** [s] has the shape of [pattern], in which [d] stands for a decimal digit
    and every other character for itself. *)
Fixpoint matches_format (pattern s : string) : bool :=
  match pattern, s with
  | EmptyString, EmptyString => true
  | String p pattern', String c s' =>
      (if Ascii.eqb p "d" then is_digit c else Ascii.eqb p c)
      && matches_format pattern' s'
  | _, _ => false
  end.

(** The number that a string of decimal digits writes; [acc] is the number
    read so far. *)
Fixpoint read_digits (acc : nat) (s : string) : option nat :=
  match s with
  | EmptyString => Some acc
  | String c s' =>
      if is_digit c then read_digits (acc * 10 + (nat_of_ascii c - 48)) s'
      else None
  end.

Definition read_decimal (s : string) : option nat :=
  match s with
  | EmptyString => None
  | String _ _ => read_digits 0 s
  end.

(** [s] writes the number [n] on [width] decimal digits. *)
Definition writes_number (width n : nat) (s : string) : Prop :=
  String.length s = width /\ read_decimal s = Some n.

(** The fields of a [struct_time] that [strftime] writes on two digits are
    below 100 (a month is at most 12, a day 31, an hour 23, a minute 59, a
    second 61). *)
Definition two_digit_fields (t : struct_time) : Prop :=
  tm_mon t < 100 /\ tm_mday t < 100 /\ tm_hour t < 100
  /\ tm_min t < 100 /\ tm_sec t < 100.

(** ** Sample data *)

Definition sample_job (jobid name user account : string) : Job :=
  [ ("ACCOUNT", account); ("JOBID", jobid); ("NAME", name); ("NODES", "2");
    ("PARTITION", "gp4d"); ("START_TIME", "2026-11-03T08:00:00");
    ("TIME", "1:05:07"); ("USER", user) ].

Definition sample_jobs : list Job :=
  [ sample_job "1" "build" "alice" "phys01";
    sample_job "2" "" "bob" "unknown01";
    sample_job "3" "train" "alice" "PHYS01" ].

Definition sample_config : Config :=
  {| project_map := [("PHYS01", "Physics")]; user_map := [("Alice", "A. Liddell")] |}.

Definition sample_time : struct_time :=
  {| tm_year := 2026; tm_mon := 11; tm_mday := 3;
     tm_hour := 9; tm_min := 5; tm_sec := 7 |}.

(** ** Properties of parsed records *)

(** The text of a list of lines. *)
Definition unlines (ls : list string) : string :=
  String.concat (String newline EmptyString) ls.

(** The record has the names of the header for keys, and binds the name of
    each column to the field of the line in that column. *)
Definition bound_by_position (header fields : list string) (job : Job) : Prop :=
  (forall k, In k (dict_keys job) <-> In k header)
  /\ (forall n k v,
         nth_error header n = Some k -> nth_error fields n = Some v ->
         dict_get job k = Some v).

(** The pairing of names and fields stops at the shorter of the two: no
    padding, no entry beyond the header. *)
Definition stops_at_shorter (header fields : list string) (job : Job) : Prop :=
  job = dict_of (zip (firstn (List.length fields) header)
                     (firstn (List.length header) fields))
  /\ List.length job <= Nat.min (List.length header) (List.length fields)
  /\ incl (dict_keys job) header
  /\ (NoDup header ->
      job = combine (firstn (List.length fields) header)
                    (firstn (List.length header) fields)).

(** Columns of the same name are one entry, whose value is the field of the
    last of these columns that the line reaches. *)
Definition last_column_wins (header fields : list string) (job : Job) : Prop :=
  dict_wf job
  /\ (forall k v,
         dict_get job k = Some v <->
         exists n, nth_error header n = Some k
                   /\ nth_error fields n = Some v
                   /\ forall m, n < m -> m < List.length fields ->
                                nth_error header m <> Some k)
  /\ List.length job < List.length header.

(** ** The command and the routine

    [build_command] and the part of [routine] (in [main]) between the
    captured bytes of the standard output of the command and the arguments
    of [chat_postMessage]. *)

Definition comma : ascii := ","%char.

(** [sep.join(l)] *)
Definition join (sep : string) (l : list string) : string :=
  String.concat sep l.

Definition build_command (config : Config) : list string :=
  let account_list := join "," (dict_keys (project_map config)) in
  ["squeue"; "-a"; "-o"; "%all"; "-A"; account_list].

(** The keyword arguments of [client.chat_postMessage]. *)
Record message : Type := {
  msg_channel : string;
  msg_text : string;
  msg_blocks : list block
}.

(** A continuation byte of UTF-8. *)
Definition utf8_cont (c : ascii) : bool := byte_in 128 191 c.

(** The second byte of a sequence of three bytes: no overlong form after
    E0, no surrogate after ED. *)
Definition utf8_second3 (c1 c2 : ascii) : bool :=
  if (nat_of_ascii c1 =? 224)%nat then byte_in 160 191 c2
  else if (nat_of_ascii c1 =? 237)%nat then byte_in 128 159 c2
  else utf8_cont c2.

(** The second byte of a sequence of four bytes: no overlong form after
    F0, nothing above U+10FFFF after F4. *)
Definition utf8_second4 (c1 c2 : ascii) : bool :=
  if (nat_of_ascii c1 =? 240)%nat then byte_in 144 191 c2
  else if (nat_of_ascii c1 =? 244)%nat then byte_in 128 143 c2
  else utf8_cont c2.

(** The bytes are well-formed UTF-8: sequences of one byte (00-7F), two
    (C2-DF), three (E0-EF) and four bytes (F0-F4). *)
Fixpoint utf8_valid (s : string) : bool :=
  match s with
  | EmptyString => true
  | String c1 s1 =>
      if byte_in 0 127 c1 then utf8_valid s1
      else
        match s1 with
        | EmptyString => false
        | String c2 s2 =>
            if byte_in 194 223 c1 then utf8_cont c2 && utf8_valid s2
            else
              match s2 with
              | EmptyString => false
              | String c3 s3 =>
                  if byte_in 224 239 c1 then
                    utf8_second3 c1 c2 && utf8_cont c3 && utf8_valid s3
                  else
                    match s3 with
                    | EmptyString => false
                    | String c4 s4 =>
                        byte_in 240 244 c1 && utf8_second4 c1 c2
                        && utf8_cont c3 && utf8_cont c4 && utf8_valid s4
                    end
              end
        end
  end.

(** [b.decode()]: the text of well-formed UTF-8 bytes, which the model
    represents by these bytes; [UnicodeDecodeError] otherwise. *)
Definition decode (b : string) : result string :=
  if utf8_valid b then Ok b else Raise UnicodeDecodeError.

(** [routine], from the bytes of [process.stdout] to the message; [channel]
    is [config['slack']['channel']]. *)
Definition routine_message (upper : string -> string) (now : struct_time)
  (stdout channel : string) (config : Config) : result message :=
  output <- decode stdout ;;
  jobs <- parse_squeue_output output ;;
  blocks <- get_blocks upper now jobs config ;;
  Ok {| msg_channel := channel;
        msg_text := "📋 TWCC HPC 任務例行檢查";
        msg_blocks := blocks |}.

(** ** Further properties *)

(** [c in s] for a character. *)
Fixpoint has_char (c : ascii) (s : string) : bool :=
  match s with
  | EmptyString => false
  | String c' s' => Ascii.eqb c' c || has_char c s'
  end.

(** A table cell: a string without pipe and without line break. *)
Definition is_cell (s : string) : bool :=
  negb (has_char pipe s) && negb (has_char newline s).

(** The text of a table: the cells of each row joined by pipes, the rows
    joined by line breaks. *)
Definition table_text (header : list string) (rows : list (list string))
  : string :=
  unlines (map (join "|") (header :: rows)).

(** A string of ASCII white space. *)
Fixpoint ascii_blank (s : string) : bool :=
  match s with
  | EmptyString => true
  | String c s' => is_space1 c && ascii_blank s'
  end.

(** The first field, in the order in which [get_blocks] reads them, that a
    record lacks. *)
Definition first_missing (j : Job) : option string :=
  find (fun k => negb (dict_mem j k)) report_fields.

(** A list of fields as [get_blocks] builds it: eight plain-text objects
    with emoji. *)
Definition fields_block_ok (b : block) : Prop :=
  match b with
  | section_fields fields =>
      List.length fields = 8
      /\ Forall (fun t => exists s, t = plain_text s true) fields
  | _ => True
  end.

(** * Proofs *)

(** ** The error monad *)

Lemma bind_ok {A B} (m : result A) (k : A -> result B) (b : B) :
  bind m k = Ok b -> exists a, m = Ok a /\ k a = Ok b.
Proof.
  destruct m as [a|e]; simpl; intros H; [eauto | discriminate].
Qed.

Lemma mapM_ok_iff {A B} (f : A -> result B) (l : list A) (ys : list B) :
  mapM f l = Ok ys <-> Forall2 (fun x y => f x = Ok y) l ys.
Proof.
  revert ys; induction l as [|x l IH]; intros ys; simpl.
  - split; intros H.
    + injection H as <-. constructor.
    + inversion H. reflexivity.
  - split; intros H.
    + apply bind_ok in H as (y & Hy & H).
      apply bind_ok in H as (ys' & Hys & H).
      injection H as <-. constructor; [assumption | now apply IH].
    + inversion H as [|x' y l' ys' Hy Hys]; subst.
      rewrite Hy; simpl. apply IH in Hys. rewrite Hys. reflexivity.
Qed.

Lemma mapM_total {A B} (f : A -> result B) (g : A -> B) (l : list A) :
  (forall x, In x l -> f x = Ok (g x)) -> mapM f l = Ok (map g l).
Proof.
  induction l as [|x l IH]; intros H; simpl; [reflexivity|].
  rewrite (H x (or_introl eq_refl)); simpl.
  rewrite IH by (intros y Hy; apply H; now right). reflexivity.
Qed.

(** ** Splitting *)

Lemma split_not_nil (sep : ascii) (s : string) : split sep s <> [].
Proof.
  destruct s as [|c s]; simpl; [discriminate|].
  destruct (Ascii.eqb c sep); [discriminate|].
  destruct (split sep s); discriminate.
Qed.

(** ** Dictionaries *)

Lemma dict_mem_get (d : dict) (k : string) :
  dict_mem d k = match dict_get d k with Some _ => true | None => false end.
Proof.
  induction d as [|[k' v] d IH]; simpl; [reflexivity|].
  destruct (String.eqb k' k); [reflexivity | exact IH].
Qed.

Lemma dict_get_in_keys (d : dict) (k : string) :
  dict_get d k <> None <-> In k (dict_keys d).
Proof.
  induction d as [|[k' v] d IH]; simpl.
  - split; [congruence | tauto].
  - destruct (String.eqb_spec k' k) as [->|Hne].
    + split; [now left | discriminate].
    + rewrite IH. split; [now right | intros [H|H]; [contradiction | exact H]].
Qed.

Lemma dict_get_in (d : dict) (k v : string) :
  dict_get d k = Some v -> In (k, v) d.
Proof.
  induction d as [|[k' v'] d IH]; simpl; [discriminate|].
  destruct (String.eqb_spec k' k) as [->|Hne].
  - intros [= ->]. now left.
  - intros H. right. now apply IH.
Qed.

Lemma dict_get_set (d : dict) (k v k' : string) :
  dict_get (dict_set d k v) k'
  = if String.eqb k k' then Some v else dict_get d k'.
Proof.
  induction d as [|[k0 v0] d IH]; simpl.
  - reflexivity.
  - destruct (String.eqb_spec k0 k) as [->|Hne]; simpl.
    + destruct (String.eqb k k'); reflexivity.
    + rewrite IH. destruct (String.eqb_spec k0 k') as [->|Hne'].
      * destruct (String.eqb_spec k k'); [congruence | reflexivity].
      * reflexivity.
Qed.

Lemma dict_set_fresh (d : dict) (k v : string) :
  ~ In k (dict_keys d) -> dict_set d k v = (d ++ [(k, v)])%list.
Proof.
  induction d as [|[k0 v0] d IH]; simpl; intros H; [reflexivity|].
  destruct (String.eqb_spec k0 k) as [->|Hne]; [tauto|].
  rewrite IH by tauto. reflexivity.
Qed.

Lemma dict_keys_set (d : dict) (k v : string) :
  dict_keys (dict_set d k v)
  = if dict_mem d k then dict_keys d else (dict_keys d ++ [k])%list.
Proof.
  induction d as [|[k0 v0] d IH]; simpl; [reflexivity|].
  destruct (String.eqb_spec k0 k) as [->|Hne]; simpl; [reflexivity|].
  rewrite IH. destruct (dict_mem d k); reflexivity.
Qed.

Lemma dict_set_wf (d : dict) (k v : string) :
  dict_wf d -> dict_wf (dict_set d k v).
Proof.
  unfold dict_wf. intros Hd. rewrite dict_keys_set, dict_mem_get.
  destruct (dict_get d k) eqn:E; [exact Hd|].
  apply NoDup_app; [exact Hd | repeat constructor; simpl; tauto |].
  intros x Hx [<-|[]]. apply dict_get_in_keys in Hx. congruence.
Qed.

Lemma dict_update_cons (d : dict) (k v : string) (pairs : list (string * string)) :
  dict_update d ((k, v) :: pairs) = dict_update (dict_set d k v) pairs.
Proof. reflexivity. Qed.

Lemma dict_update_wf (pairs : list (string * string)) (d : dict) :
  dict_wf d -> dict_wf (dict_update d pairs).
Proof.
  revert d; induction pairs as [|[k v] pairs IH]; intros d Hd.
  - exact Hd.
  - rewrite dict_update_cons. apply IH, dict_set_wf, Hd.
Qed.

Lemma dict_update_get (pairs : list (string * string)) (d : dict) (k : string) :
  dict_get (dict_update d pairs) k
  = match assoc_last pairs k with
    | Some v => Some v
    | None => dict_get d k
    end.
Proof.
  revert d; induction pairs as [|[k' v] pairs IH]; intros d.
  - reflexivity.
  - rewrite dict_update_cons, IH. simpl.
    destruct (assoc_last pairs k); [reflexivity|].
    rewrite dict_get_set. destruct (String.eqb k' k); reflexivity.
Qed.

Lemma dict_update_keys_incl (pairs : list (string * string)) (d : dict) :
  incl (dict_keys (dict_update d pairs)) (dict_keys d ++ map fst pairs).
Proof.
  revert d; induction pairs as [|[k v] pairs IH]; intros d.
  - simpl. rewrite app_nil_r. apply incl_refl.
  - rewrite dict_update_cons. simpl.
    intros x Hx. apply IH in Hx. apply in_app_or in Hx as [Hx|Hx].
    + rewrite dict_keys_set in Hx.
      destruct (dict_mem d k).
      * apply in_or_app. now left.
      * apply in_app_or in Hx as [Hx|[<-|[]]]; apply in_or_app;
          [now left | right; now left].
    + apply in_or_app. right. now right.
Qed.

Lemma dict_update_fresh (pairs : list (string * string)) (d : dict) :
  NoDup (dict_keys d ++ map fst pairs) ->
  dict_update d pairs = (d ++ pairs)%list.
Proof.
  revert d; induction pairs as [|[k v] pairs IH]; intros d H.
  - simpl. now rewrite app_nil_r.
  - assert (Hk : ~ In k (dict_keys d)).
    { apply NoDup_remove_2 in H. intros Hin. apply H, in_or_app. now left. }
    rewrite dict_update_cons, (dict_set_fresh d k v Hk), IH.
    + now rewrite <- app_assoc.
    + unfold dict_keys. rewrite map_app. simpl. rewrite <- app_assoc. exact H.
Qed.

Lemma dict_of_wf (pairs : list (string * string)) : dict_wf (dict_of pairs).
Proof. apply (dict_update_wf pairs []). constructor. Qed.

Lemma dict_of_get (pairs : list (string * string)) (k : string) :
  dict_get (dict_of pairs) k = assoc_last pairs k.
Proof.
  unfold dict_of. change (fold_left _ pairs []) with (dict_update [] pairs).
  rewrite dict_update_get. destruct (assoc_last pairs k); reflexivity.
Qed.

Lemma dict_of_nodup (pairs : list (string * string)) :
  NoDup (map fst pairs) -> dict_of pairs = pairs.
Proof. intros H. apply (dict_update_fresh pairs []). exact H. Qed.

Lemma dict_of_keys_incl (pairs : list (string * string)) :
  incl (dict_keys (dict_of pairs)) (map fst pairs).
Proof. apply (dict_update_keys_incl pairs []). Qed.

Lemma dict_of_length (pairs : list (string * string)) :
  List.length (dict_of pairs) <= List.length pairs.
Proof.
  rewrite <- (length_map fst pairs), <- (length_map fst (dict_of pairs)).
  apply NoDup_incl_length; [apply dict_of_wf | apply dict_of_keys_incl].
Qed.

Lemma assoc_last_none (pairs : list (string * string)) (k : string) :
  assoc_last pairs k = None <-> ~ In k (map fst pairs).
Proof.
  induction pairs as [|[k' v] pairs IH]; simpl.
  - tauto.
  - destruct (assoc_last pairs k) as [v'|].
    + split; [discriminate|]. intros H. exfalso.
      assert (Hn : ~ In k (map fst pairs)) by tauto.
      apply IH in Hn. discriminate.
    + destruct (String.eqb_spec k' k) as [->|Hne].
      * split; [discriminate | tauto].
      * split; [|reflexivity]. intros _ [H|H]; [contradiction|].
        now apply (proj1 IH).
Qed.

Lemma assoc_last_nth (pairs : list (string * string)) (k v : string) :
  assoc_last pairs k = Some v <->
  exists n, nth_error pairs n = Some (k, v)
            /\ forall m v', n < m -> nth_error pairs m <> Some (k, v').
Proof.
  revert v; induction pairs as [|[k' v0] pairs IH]; intros v; simpl.
  - split; [discriminate|]. intros (n & H & _). destruct n; discriminate.
  - split.
    + destruct (assoc_last pairs k) as [v'|] eqn:E.
      * intros [= ->]. destruct (proj1 (IH v) eq_refl) as (n & Hn & Hlast).
        exists (S n). split; [exact Hn|].
        intros [|m] v'' Hm; [lia|]. simpl. apply Hlast. lia.
      * destruct (String.eqb_spec k' k) as [->|Hne]; [|discriminate].
        intros [= ->]. exists 0. split; [reflexivity|].
        intros [|m] v' Hm Hnth; [lia|]. simpl in Hnth.
        apply assoc_last_none in E. apply E.
        apply nth_error_In in Hnth.
        change k with (fst (k, v')). now apply in_map.
    + intros ([|n] & Hn & Hlast); simpl in Hn.
      * injection Hn as -> ->.
        destruct (assoc_last pairs k) as [v'|] eqn:E.
        -- exfalso. destruct (proj1 (IH v') eq_refl) as (n & Hn & _).
           apply (Hlast (S n) v'); [lia | exact Hn].
        -- now rewrite String.eqb_refl.
      * assert (E : assoc_last pairs k = Some v).
        { apply IH. exists n. split; [exact Hn|].
          intros m v' Hm. apply (Hlast (S m) v'). lia. }
        now rewrite E.
Qed.

(** ** Pairing by position *)

Lemma nth_error_combine {A B} (l : list A) (l' : list B) (n : nat) :
  nth_error (combine l l') n
  = match nth_error l n, nth_error l' n with
    | Some a, Some b => Some (a, b)
    | _, _ => None
    end.
Proof.
  revert l' n; induction l as [|a l IH]; intros [|b l'] [|n]; simpl;
    try reflexivity.
  - destruct (nth_error l n); reflexivity.
  - apply IH.
Qed.

Lemma map_fst_combine {A B} (l : list A) (l' : list B) :
  map fst (combine l l') = firstn (List.length l') l.
Proof.
  revert l'; induction l as [|a l IH]; intros [|b l']; simpl;
    try reflexivity.
  now rewrite IH.
Qed.

Lemma map_snd_combine {A B} (l : list A) (l' : list B) :
  map snd (combine l l') = firstn (List.length l) l'.
Proof.
  revert l'; induction l as [|a l IH]; intros [|b l']; simpl;
    try reflexivity.
  now rewrite IH.
Qed.

Lemma combine_shorter {A B} (l : list A) (l' : list B) :
  combine l l'
  = combine (firstn (List.length l') l) (firstn (List.length l) l').
Proof.
  revert l'; induction l as [|a l IH]; intros [|b l']; simpl;
    try reflexivity.
  now rewrite <- IH.
Qed.

Lemma NoDup_firstn {A} (n : nat) (l : list A) : NoDup l -> NoDup (firstn n l).
Proof.
  intros H. rewrite <- (firstn_skipn n l) in H.
  now apply NoDup_app_remove_r in H.
Qed.

Lemma Forall2_map_intro {A B} (P : A -> B -> Prop) (f : A -> B) (l : list A) :
  (forall x, In x l -> P x (f x)) -> Forall2 P l (map f l).
Proof.
  induction l as [|x l IH]; intros H; simpl; constructor.
  - apply H. now left.
  - apply IH. intros y Hy. apply H. now right.
Qed.

(** ** The parser *)

Lemma parse_squeue_output_lines (output hline : string) (dlines : list string) :
  split newline (strip output) = hline :: dlines ->
  parse_squeue_output output = Ok (map (parse_line (split pipe hline)) dlines).
Proof. unfold parse_squeue_output. intros ->. reflexivity. Qed.

Lemma parse_squeue_output_total (output : string) :
  exists jobs, parse_squeue_output output = Ok jobs.
Proof.
  destruct (split newline (strip output)) as [|hline dlines] eqn:E.
  - now apply split_not_nil in E.
  - eexists. apply (parse_squeue_output_lines _ _ _ E).
Qed.

Lemma parse_line_get (header : list string) (l k v : string) :
  dict_get (parse_line header l) k = Some v <->
  exists n, nth_error header n = Some k
            /\ nth_error (split pipe l) n = Some v
            /\ forall m, n < m -> m < List.length (split pipe l) ->
                         nth_error header m <> Some k.
Proof.
  unfold parse_line, zip. rewrite dict_of_get, assoc_last_nth.
  split; intros (n & Hn & Hlast).
  - rewrite nth_error_combine in Hn.
    destruct (nth_error header n) as [k0|] eqn:Ek; [|discriminate].
    destruct (nth_error (split pipe l) n) as [v0|] eqn:Ev; [|discriminate].
    injection Hn as -> ->. exists n. repeat split; try assumption.
    intros m Hm Hlen Hk.
    destruct (nth_error (split pipe l) m) as [v'|] eqn:Ev'.
    + apply (Hlast m v' Hm). now rewrite nth_error_combine, Hk, Ev'.
    + apply nth_error_None in Ev'. lia.
  - destruct Hlast as (Hv & Hlast). exists n. split.
    + now rewrite nth_error_combine, Hn, Hv.
    + intros m v' Hm Hc. rewrite nth_error_combine in Hc.
      destruct (nth_error header m) as [k0|] eqn:Ek; [|discriminate].
      destruct (nth_error (split pipe l) m) as [v0|] eqn:Ev; [|discriminate].
      injection Hc as -> ->. apply (Hlast m Hm); [|exact Ek].
      apply nth_error_Some. congruence.
Qed.

Lemma parse_line_length (header : list string) (l : string) :
  List.length (parse_line header l)
  <= Nat.min (List.length header) (List.length (split pipe l)).
Proof.
  unfold parse_line, zip.
  rewrite <- (length_combine header (split pipe l)). apply dict_of_length.
Qed.

Lemma parse_line_keys_incl (header : list string) (l : string) :
  incl (dict_keys (parse_line header l)) header.
Proof.
  unfold parse_line, zip. intros k Hk. apply dict_of_keys_incl in Hk.
  apply in_map_iff in Hk as ([k' v] & <- & Hin).
  now apply in_combine_l in Hin.
Qed.

Lemma parse_line_shorter (header : list string) (l : string) :
  parse_line header l
  = dict_of (zip (firstn (List.length (split pipe l)) header)
                 (firstn (List.length header) (split pipe l))).
Proof. unfold parse_line, zip. now rewrite <- combine_shorter. Qed.

Lemma parse_line_nodup (header : list string) (l : string) :
  NoDup header ->
  parse_line header l
  = combine (firstn (List.length (split pipe l)) header)
            (firstn (List.length header) (split pipe l)).
Proof.
  intros H. unfold parse_line, zip. rewrite <- combine_shorter.
  apply dict_of_nodup. rewrite map_fst_combine. now apply NoDup_firstn.
Qed.

Lemma repeated_not_NoDup {A} (l : list A) (i j : nat) (x : A) :
  i < j -> nth_error l i = Some x -> nth_error l j = Some x -> ~ NoDup l.
Proof.
  intros Hij Hi Hj Hnd.
  assert (Hlen : i < List.length l) by (apply nth_error_Some; congruence).
  pose proof (proj1 (NoDup_nth_error l) Hnd i j Hlen) as H.
  rewrite Hi, Hj in H. specialize (H eq_refl). lia.
Qed.

Lemma parse_line_collapses (header : list string) (l : string) :
  ~ NoDup header ->
  List.length (parse_line header l) < List.length header.
Proof.
  intros Hdup.
  destruct (Nat.lt_ge_cases (List.length (parse_line header l))
                            (List.length header)) as [Hlt|Hge]; [exact Hlt|].
  exfalso. apply Hdup.
  apply (NoDup_incl_NoDup (l := dict_keys (parse_line header l))).
  - apply dict_of_wf.
  - unfold dict_keys. rewrite length_map. exact Hge.
  - apply parse_line_keys_incl.
Qed.

(** C1 (as amended). When the names of the header are pairwise distinct and
    every data line has as many fields as the header, [parse_squeue_output]
    returns one record per data line, in order; each record is the header
    paired with the fields of its line: its keys are the header, and the
    name of column [n] is bound to field [n]. *)
Theorem parse_squeue_output_well_formed
  (output hline : string) (dlines : list string) :
  split newline (strip output) = hline :: dlines ->
  NoDup (split pipe hline) ->
  (forall l, In l dlines ->
             List.length (split pipe l) = List.length (split pipe hline)) ->
  exists jobs,
    parse_squeue_output output = Ok jobs
    /\ List.length jobs = List.length dlines
    /\ Forall2 (fun l job =>
                  job = combine (split pipe hline) (split pipe l)
                  /\ dict_keys job = split pipe hline
                  /\ bound_by_position (split pipe hline) (split pipe l) job)
               dlines jobs.
Proof.
  intros Hlines Hnd Hlen.
  exists (map (parse_line (split pipe hline)) dlines).
  split; [now apply parse_squeue_output_lines|].
  split; [apply length_map|].
  apply Forall2_map_intro. intros l Hl.
  assert (E : parse_line (split pipe hline) l
              = combine (split pipe hline) (split pipe l)).
  { rewrite (parse_line_nodup _ _ Hnd), (Hlen l Hl), firstn_all.
    now rewrite <- (Hlen l Hl), firstn_all. }
  assert (K : dict_keys (parse_line (split pipe hline) l) = split pipe hline).
  { rewrite E. unfold dict_keys. rewrite map_fst_combine, (Hlen l Hl).
    apply firstn_all. }
  split; [exact E|]. split; [exact K|]. split.
  - intros k. now rewrite K.
  - intros n k v Hk Hv. apply parse_line_get. exists n.
    repeat split; try assumption.
    intros m Hm _ Hk'.
    assert (Hn : n < List.length (split pipe hline))
      by (apply nth_error_Some; congruence).
    pose proof (proj1 (NoDup_nth_error _) Hnd n m Hn) as H.
    rewrite Hk, Hk' in H. specialize (H eq_refl). lia.
Qed.

Ltac distinct_strings :=
  repeat (constructor; [simpl; intuition discriminate|]); constructor.

Ltac each_line :=
  let l := fresh "l" in
  let H := fresh "H" in
  intros l H; simpl in H;
  repeat (destruct H as [<-|H]; [reflexivity|]); destruct H.

Lemma parse_squeue_output_well_formed_witness :
  exists jobs,
    parse_squeue_output
      (unlines ["JOBID|NAME|USER|ACCOUNT"; "1|build|alice|phys01";
                "2||bob|unknown01"]) = Ok jobs
    /\ List.length jobs = 2
    /\ Forall2 (fun l job =>
                  job = combine (split pipe "JOBID|NAME|USER|ACCOUNT")
                                (split pipe l)
                  /\ dict_keys job = split pipe "JOBID|NAME|USER|ACCOUNT"
                  /\ bound_by_position (split pipe "JOBID|NAME|USER|ACCOUNT")
                                       (split pipe l) job)
               ["1|build|alice|phys01"; "2||bob|unknown01"] jobs.
Proof.
  apply (parse_squeue_output_well_formed
           (unlines ["JOBID|NAME|USER|ACCOUNT"; "1|build|alice|phys01";
                     "2||bob|unknown01"])
           "JOBID|NAME|USER|ACCOUNT"
           ["1|build|alice|phys01"; "2||bob|unknown01"]).
  - reflexivity.
  - vm_compute. distinct_strings.
  - each_line.
Defined.

(** C1 (as stated) fails when the header repeats a name: for the header
    [A|A] and the line [1|2] the record is [{A: 2}], so the first field is
    not bound to the first name. *)
Lemma parse_squeue_output_repeated_names :
  ~ (forall (output hline : string) (dlines : list string),
        split newline (strip output) = hline :: dlines ->
        (forall l, In l dlines ->
           List.length (split pipe l) = List.length (split pipe hline)) ->
        exists jobs,
          parse_squeue_output output = Ok jobs
          /\ List.length jobs = List.length dlines
          /\ Forall2 (fun l job =>
                        bound_by_position (split pipe hline) (split pipe l) job)
                     dlines jobs).
Proof.
  intros H.
  destruct (H (unlines ["A|A"; "1|2"]) "A|A" ["1|2"] eq_refl)
    as (jobs & Hp & _ & HF).
  - each_line.
  - vm_compute in Hp. injection Hp as <-.
    inversion HF as [|l job ls js [_ Hb] _]; subst.
    specialize (Hb 0 "A" "1" eq_refl eq_refl). vm_compute in Hb. discriminate.
Qed.

(** C2 (as amended). [parse_squeue_output] raises for no input at all: the
    content of the data lines never makes it fail, and an empty or blank
    input, which [split] reads as one empty header line, gives the empty
    sequence of records. *)
Theorem parse_squeue_output_never_raises (output : string) :
  (exists jobs, parse_squeue_output output = Ok jobs)
  /\ (strip output = EmptyString -> parse_squeue_output output = Ok []).
Proof.
  split; [apply parse_squeue_output_total|].
  intros H. apply (parse_squeue_output_lines output EmptyString []).
  now rewrite H.
Qed.

Lemma parse_squeue_output_never_raises_witness :
  (exists jobs, parse_squeue_output (String newline "  ") = Ok jobs)
  /\ (strip (String newline "  ") = EmptyString ->
      parse_squeue_output (String newline "  ") = Ok []).
Proof. exact (parse_squeue_output_never_raises (String newline "  ")). Defined.

(** C2 (as stated) fails on the empty input, for which the parser returns
    the empty sequence of records and raises nothing. *)
Lemma parse_squeue_output_empty_input :
  parse_squeue_output EmptyString = Ok []
  /\ ~ (forall output,
           (exists e, parse_squeue_output output = Raise e)
           <-> output = EmptyString).
Proof.
  split; [reflexivity|].
  intros H. destruct (proj2 (H EmptyString) eq_refl) as (e & He).
  discriminate.
Qed.

(** C3 (as amended). A data line whose number of fields differs from the
    header's still gives a record: names and fields are paired by position
    as far as the shorter of the two goes.  A shorter line gives a record
    with fewer entries than the header has names (nothing is padded); a
    longer line gives a record over the names of the header only, its
    extra fields being dropped. *)
Theorem parse_squeue_output_lenient
  (output hline : string) (dlines : list string) :
  split newline (strip output) = hline :: dlines ->
  exists jobs,
    parse_squeue_output output = Ok jobs
    /\ Forall2 (fun l job =>
                  stops_at_shorter (split pipe hline) (split pipe l) job
                  /\ (List.length (split pipe l) < List.length (split pipe hline)
                      -> List.length job < List.length (split pipe hline))
                  /\ (List.length (split pipe hline) < List.length (split pipe l)
                      -> List.length job <= List.length (split pipe hline)))
               dlines jobs.
Proof.
  intros Hlines.
  exists (map (parse_line (split pipe hline)) dlines).
  split; [now apply parse_squeue_output_lines|].
  apply Forall2_map_intro. intros l _.
  pose proof (parse_line_length (split pipe hline) l) as Hlen.
  split; [|split; lia].
  split; [apply parse_line_shorter|].
  split; [exact Hlen|].
  split; [apply parse_line_keys_incl | apply parse_line_nodup].
Qed.

Lemma parse_squeue_output_lenient_witness :
  exists jobs,
    parse_squeue_output (unlines ["A|B|C"; "1|2"; "1|2|3|4"]) = Ok jobs
    /\ Forall2 (fun l job =>
                  stops_at_shorter (split pipe "A|B|C") (split pipe l) job
                  /\ (List.length (split pipe l) < List.length (split pipe "A|B|C")
                      -> List.length job < List.length (split pipe "A|B|C"))
                  /\ (List.length (split pipe "A|B|C") < List.length (split pipe l)
                      -> List.length job <= List.length (split pipe "A|B|C")))
               ["1|2"; "1|2|3|4"] jobs.
Proof.
  apply (parse_squeue_output_lenient
           (unlines ["A|B|C"; "1|2"; "1|2|3|4"]) "A|B|C" ["1|2"; "1|2|3|4"]).
  reflexivity.
Defined.

(** C3 (as stated) fails for a longer line: for the header [A|B] the line
    [1|2|3] gives [{A: 1, B: 2}], two entries and not more; the third field
    is cut off. *)
Lemma parse_squeue_output_longer_line :
  parse_squeue_output (unlines ["A|B"; "1|2|3"]) = Ok [[("A", "1"); ("B", "2")]]
  /\ ~ (forall (output hline : string) (dlines : list string),
           split newline (strip output) = hline :: dlines ->
           exists jobs,
             parse_squeue_output output = Ok jobs
             /\ Forall2 (fun l job =>
                   (List.length (split pipe l) < List.length (split pipe hline)
                    -> List.length job < List.length (split pipe hline))
                   /\ (List.length (split pipe hline) < List.length (split pipe l)
                       -> List.length (split pipe hline) < List.length job))
                  dlines jobs).
Proof.
  split; [reflexivity|].
  intros H.
  destruct (H (unlines ["A|B"; "1|2|3"]) "A|B" ["1|2|3"] eq_refl)
    as (jobs & Hp & HF).
  vm_compute in Hp. injection Hp as <-.
  inversion HF as [|l job ls js [_ Hb] _]; subst.
  vm_compute in Hb. specialize (Hb (le_n 3)).
  apply (Nat.lt_irrefl 2). exact Hb.
Qed.

(** C10. When two columns of the header have the same name, every parsed
    record has one entry for that name, holding the field of the last of
    these columns that the data line reaches, and so has fewer entries than
    the header has columns, whatever the number of fields of the line. *)
Theorem parse_squeue_output_repeated_columns
  (output hline : string) (dlines : list string) (i j : nat) (k : string) :
  split newline (strip output) = hline :: dlines ->
  i < j ->
  nth_error (split pipe hline) i = Some k ->
  nth_error (split pipe hline) j = Some k ->
  exists jobs,
    parse_squeue_output output = Ok jobs
    /\ Forall2 (fun l job =>
                  last_column_wins (split pipe hline) (split pipe l) job)
               dlines jobs.
Proof.
  intros Hlines Hij Hi Hj.
  exists (map (parse_line (split pipe hline)) dlines).
  split; [now apply parse_squeue_output_lines|].
  apply Forall2_map_intro. intros l _.
  split; [apply dict_of_wf|].
  split; [intros k' v; apply parse_line_get|].
  apply parse_line_collapses. exact (repeated_not_NoDup _ i j k Hij Hi Hj).
Qed.

Lemma parse_squeue_output_repeated_columns_witness :
  exists jobs,
    parse_squeue_output (unlines ["A|B|A"; "1|2|3"; "5|6"]) = Ok jobs
    /\ Forall2 (fun l job =>
                  last_column_wins (split pipe "A|B|A") (split pipe l) job)
               ["1|2|3"; "5|6"] jobs.
Proof.
  apply (parse_squeue_output_repeated_columns
           (unlines ["A|B|A"; "1|2|3"; "5|6"]) "A|B|A" ["1|2|3"; "5|6"]
           0 2 "A").
  - reflexivity.
  - repeat constructor.
  - reflexivity.
  - reflexivity.
Defined.

(** ** The loop over the groups *)

Lemma groupby_cons {A} (k : string) (x : A) (l : list (string * A)) :
  exists g, groupby ((k, x) :: l) = (k, x :: g) :: tl (groupby ((k, x) :: l)).
Proof.
  simpl. destruct (groupby l) as [|[k' g] gs].
  - now exists [].
  - destruct (String.eqb k k'); [now exists g | now exists []].
Qed.

Section GroupbyLoops.
Context {A S : Type}.
Variable key' : A -> result string.
Variable before' : string -> S -> result S.
Variable body' : A -> S -> result S.
Variable after' : S -> result S.
Variable key : A -> string.
Variable before : string -> S -> S.
Variable body : A -> S -> S.
Variable after : S -> S.

Hypothesis before_total : forall k s, before' k s = Ok (before k s).
Hypothesis after_total : forall s, after' s = Ok (after s).

Lemma resume_same (x : A) (l : list A) (s : S) :
  resume before body after (key x) (keyed key (x :: l)) s
  = resume before body after (key x) (keyed key l) (body x s).
Proof.
  unfold keyed. simpl.
  destruct (groupby (map (fun x => (key x, x)) l)) as [|[k' g] gs]; simpl.
  - now rewrite String.eqb_refl.
  - destruct (String.eqb (key x) k') eqn:E; simpl.
    + now rewrite String.eqb_refl.
    + now rewrite String.eqb_refl.
Qed.

Lemma run_groups_open (x : A) (l : list A) (s : S) :
  run_groups before body after (keyed key (x :: l)) s
  = resume before body after (key x) (keyed key l) (body x (before (key x) s)).
Proof.
  unfold keyed. simpl.
  destruct (groupby (map (fun x => (key x, x)) l)) as [|[k' g] gs]; simpl.
  - reflexivity.
  - destruct (String.eqb (key x) k') eqn:E; reflexivity.
Qed.

Lemma resume_other (k0 : string) (x : A) (l : list A) (s : S) :
  String.eqb k0 (key x) = false ->
  resume before body after k0 (keyed key (x :: l)) s
  = run_groups before body after (keyed key (x :: l)) (after s).
Proof.
  intros E. unfold keyed.
  destruct (groupby_cons (key x) x (map (fun x => (key x, x)) l)) as (g & Hg).
  simpl map. rewrite Hg. simpl. now rewrite E.
Qed.

Lemma for_groupby_resume (l : list A) (k0 : string) (s : S) :
  Forall (fun x => key' x = Ok (key x)
                   /\ forall s, body' x s = Ok (body x s)) l ->
  for_groupby key' before' body' after' (Some k0) l s
  = Ok (resume before body after k0 (keyed key l) s).
Proof.
  intros H. revert k0 s.
  induction H as [|x l [Hk Hb] _ IH]; intros k0 s; simpl.
  - apply after_total.
  - rewrite Hk. simpl. destruct (String.eqb k0 (key x)) eqn:E.
    + rewrite Hb. simpl. rewrite IH.
      apply String.eqb_eq in E. subst k0. now rewrite resume_same.
    + rewrite after_total. simpl. rewrite before_total. simpl.
      rewrite Hb. simpl. rewrite IH.
      now rewrite (resume_other _ _ _ _ E), run_groups_open.
Qed.

(** When nothing raises, [for_groupby] runs the nested loops over the
    groups of [groupby]. *)
Lemma for_groupby_groups (l : list A) (s : S) :
  Forall (fun x => key' x = Ok (key x)
                   /\ forall s, body' x s = Ok (body x s)) l ->
  for_groupby key' before' body' after' None l s
  = Ok (run_groups before body after (keyed key l) s).
Proof.
  intros H. destruct H as [|x l [Hk Hb] H]; simpl.
  - reflexivity.
  - rewrite Hk. simpl. rewrite before_total. simpl. rewrite Hb. simpl.
    rewrite (for_groupby_resume l (key x) _ H).
    now rewrite run_groups_open.
Qed.
End GroupbyLoops.

Section GroupbyRaises.
Context {A S : Type}.
Variable key' : A -> result string.
Variable before' : string -> S -> result S.
Variable body' : A -> S -> result S.
Variable after' : S -> result S.

(** A loop that returns has computed the key of every element and has
    run the body on every element. *)
Lemma for_groupby_ok_inv (l : list A) (tgt : option string) (s s' : S) :
  for_groupby key' before' body' after' tgt l s = Ok s' ->
  Forall (fun x => (exists k, key' x = Ok k)
                   /\ exists s1 s2, body' x s1 = Ok s2) l.
Proof.
  revert tgt s; induction l as [|x l IH]; intros tgt s H; simpl in H.
  - constructor.
  - apply bind_ok in H as (k & Hk & H).
    destruct (in_group tgt k).
    + apply bind_ok in H as (s1 & Hb & H).
      constructor; [eauto | eapply IH; eassumption].
    + apply bind_ok in H as (s1 & _ & H).
      apply bind_ok in H as (s2 & _ & H).
      apply bind_ok in H as (s3 & Hb & H).
      constructor; [eauto | eapply IH; eassumption].
Qed.

Variable P : exception -> Prop.
Hypothesis key_raises : forall x e, key' x = Raise e -> P e.
Hypothesis before_raises : forall k s e, before' k s = Raise e -> P e.
Hypothesis body_raises : forall x s e, body' x s = Raise e -> P e.
Hypothesis after_raises : forall s e, after' s = Raise e -> P e.

(** The loop raises what its parts raise. *)
Lemma for_groupby_raises (l : list A) (tgt : option string) (s : S)
  (e : exception) :
  for_groupby key' before' body' after' tgt l s = Raise e -> P e.
Proof.
  revert tgt s; induction l as [|x l IH]; intros tgt s H; simpl in H.
  - destruct tgt; simpl in H; [eauto | discriminate].
  - destruct (key' x) as [k|e'] eqn:Hk; simpl in H;
      [|injection H as <-; eauto].
    destruct (in_group tgt k).
    + destruct (body' x s) as [s1|e'] eqn:Hb; simpl in H;
        [eauto | injection H as <-; eauto].
    + destruct (end_group after' tgt s) as [s1|e'] eqn:He; simpl in H.
      * destruct (before' k s1) as [s2|e'] eqn:Hbe; simpl in H;
          [|injection H as <-; eauto].
        destruct (body' x s2) as [s3|e'] eqn:Hb; simpl in H;
          [eauto | injection H as <-; eauto].
      * injection H as <-. destruct tgt; simpl in He; [eauto | discriminate].
Qed.
End GroupbyRaises.

(** ** The formatters *)

Lemma mapM_raise {A B} (f : A -> result B) (l : list A) (e : exception) :
  mapM f l = Raise e -> exists x, In x l /\ f x = Raise e.
Proof.
  induction l as [|x l IH]; simpl; [discriminate|].
  destruct (f x) as [y|e'] eqn:Hx; simpl.
  - destruct (mapM f l) as [ys|e'']; simpl; [discriminate|].
    intros [= ->]. destruct (IH eq_refl) as (x' & Hin & Hx').
    exists x'. split; [now right | exact Hx'].
  - intros [= ->]. exists x. split; [now left | exact Hx].
Qed.

Lemma with_label_ok (m : dict) (x : string) :
  with_label m x = Ok (labelled m x).
Proof.
  unfold with_label, labelled, dict_item. rewrite dict_mem_get.
  destruct (dict_get m x); reflexivity.
Qed.

Lemma dict_item_ok (j : Job) (k v : string) :
  dict_item j k = Ok v <-> dict_get j k = Some v.
Proof.
  unfold dict_item. destruct (dict_get j k); split; congruence.
Qed.

Lemma dict_item_raise (j : Job) (k : string) (e : exception) :
  dict_item j k = Raise e -> e = KeyError k /\ dict_get j k = None.
Proof.
  unfold dict_item. destruct (dict_get j k); [discriminate|].
  intros [= <-]. now split.
Qed.

Lemma dict_item_field (j : Job) (k : string) :
  dict_mem j k = true -> dict_item j k = Ok (field j k).
Proof.
  rewrite dict_mem_get. unfold dict_item, field.
  destruct (dict_get j k); [reflexivity | discriminate].
Qed.

Lemma complete_job_mem (j : Job) (k : string) :
  complete_job j = true -> In k report_fields -> dict_mem j k = true.
Proof.
  unfold complete_job. rewrite forallb_forall. intros H Hk. now apply H.
Qed.

Ltac report_field :=
  unfold report_fields; simpl; tauto.

Section ReportFacts.
Variable upper : string -> string.
Variable config : Config.

Lemma get_simple_formmatter_ok (d f : string) (j : Job) :
  dict_mem j f = true ->
  get_simple_formmatter d f j = Ok (simple_annotator d f j).
Proof.
  intros H. unfold get_simple_formmatter. now rewrite (dict_item_field j f H).
Qed.

Lemma project_formatter_ok (j : Job) :
  dict_mem j "ACCOUNT" = true ->
  project_formatter upper config j = Ok (project_annotator upper config j).
Proof.
  intros H. unfold project_formatter.
  rewrite (dict_item_field j _ H). simpl. now rewrite with_label_ok.
Qed.

Lemma user_formatter_ok (j : Job) :
  dict_mem j "USER" = true ->
  user_formatter config j = Ok (user_annotator config j).
Proof.
  intros H. unfold user_formatter.
  rewrite (dict_item_field j _ H). simpl. now rewrite with_label_ok.
Qed.

Lemma job_body_complete (j : Job) (blocks : list block) :
  complete_job j = true ->
  job_body upper config j blocks
  = Ok (blocks ++ job_node_blocks (job_node upper config j))%list.
Proof.
  intros H. unfold job_body.
  rewrite (dict_item_field j "NAME")
    by (apply complete_job_mem; [exact H | report_field]).
  cbn [bind].
  rewrite (mapM_total _ (fun f => plain_text
             (match f j with Ok t => t | Raise _ => EmptyString end) true)).
  - cbn [bind]. rewrite <- app_assoc. f_equal. f_equal.
    unfold job_node_blocks, job_node, annotators, get_formatters, simple_fields.
    cbn [job_title job_fields map app fst snd].
    rewrite !get_simple_formmatter_ok, project_formatter_ok, user_formatter_ok
      by (apply complete_job_mem; [exact H | report_field]).
    reflexivity.
  - intros f Hf. unfold get_formatters in Hf. simpl in Hf.
    repeat (destruct Hf as [<-|Hf];
            [ first [ rewrite get_simple_formmatter_ok
                    | rewrite project_formatter_ok
                    | rewrite user_formatter_ok ];
              [ reflexivity | apply complete_job_mem; [exact H | report_field] ]
            | ]).
    destruct Hf.
Qed.

Lemma group_header_ok (user : string) (blocks : list block) :
  group_header config user blocks
  = Ok (blocks
        ++ [section (mrkdwn ("🤪 *" ++ labelled (user_map config) user
                             ++ "* 有以下任務正在運行："))])%list.
Proof. unfold group_header. now rewrite with_label_ok. Qed.

Lemma user_key_complete (j : Job) :
  complete_job j = true -> user_key j = Ok (field j "USER").
Proof.
  intros H. apply dict_item_field, complete_job_mem; [exact H | report_field].
Qed.

End ReportFacts.

(** ** The report *)

Lemma fold_left_append {A B} (f : A -> list B) (l : list A) (s : list B) :
  fold_left (fun s x => s ++ f x)%list l s = (s ++ flat_map f l)%list.
Proof.
  revert s; induction l as [|x l IH]; intros s; simpl.
  - now rewrite app_nil_r.
  - now rewrite IH, app_assoc.
Qed.

Lemma Forall2_in_left {A B} (P : A -> B -> Prop) (l : list A) (l' : list B)
  (x : A) :
  Forall2 P l l' -> In x l -> exists y, In y l' /\ P x y.
Proof.
  induction 1 as [|a b l l' Hab _ IH]; simpl; [tauto|].
  intros [<-|Hin].
  - exists b. split; [now left | exact Hab].
  - destruct (IH Hin) as (y & Hy & Hxy). exists y. split; [now right | exact Hxy].
Qed.

Lemma flat_map_map {A B C} (f : A -> B) (g : B -> list C) (l : list A) :
  flat_map g (map f l) = flat_map (fun x => g (f x)) l.
Proof.
  induction l as [|x l IH]; simpl; [reflexivity | now rewrite IH].
Qed.

Section GetBlocksFacts.
Variable upper : string -> string.
Variable config : Config.

Lemma user_group_blocks_node (k : string) (g : list Job) :
  user_group_blocks (group_node upper config (k, g))
  = ([section (mrkdwn ("🤪 *" ++ labelled (user_map config) k
                       ++ "* 有以下任務正在運行："))]
     ++ flat_map (fun j => job_node_blocks (job_node upper config j)) g
     ++ [divider])%list.
Proof.
  unfold user_group_blocks, group_node. cbn [group_label group_jobs fst snd].
  now rewrite flat_map_map.
Qed.

(** The nested loops of [get_blocks] append the blocks of the groups. *)
Lemma run_groups_blocks (gs : list (string * list Job)) (s : list block) :
  run_groups
    (fun k s => s ++ [section (mrkdwn ("🤪 *" ++ labelled (user_map config) k
                                        ++ "* 有以下任務正在運行："))])%list
    (fun j s => s ++ job_node_blocks (job_node upper config j))%list
    (fun s => s ++ [divider])%list
    gs s
  = (s ++ flat_map user_group_blocks (map (group_node upper config) gs))%list.
Proof.
  revert s; induction gs as [|[k g] gs IH]; intros s.
  - simpl. now rewrite app_nil_r.
  - unfold run_groups in *. cbn [fold_left map flat_map]. rewrite IH.
    unfold run_group. cbn [fst snd].
    rewrite (fold_left_append
               (fun j => job_node_blocks (job_node upper config j))).
    rewrite user_group_blocks_node, <- !app_assoc. reflexivity.
Qed.

(** On complete records [get_blocks] returns the report that the
    specification assembles from the groups it builds. *)
Lemma get_blocks_complete (now : struct_time) (jobs : list Job) :
  Forall (fun j => complete_job j = true) jobs ->
  get_blocks upper now jobs config
  = Ok (assemble (build upper config jobs) now).
Proof.
  intros H. unfold get_blocks.
  rewrite (for_groupby_groups
             user_key (group_header config) (job_body upper config) group_footer
             (fun j => field j "USER")
             (fun k s => s ++ [section (mrkdwn ("🤪 *"
                                 ++ labelled (user_map config) k
                                 ++ "* 有以下任務正在運行："))])%list
             (fun j s => s ++ job_node_blocks (job_node upper config j))%list
             (fun s => s ++ [divider])%list).
  - now rewrite run_groups_blocks.
  - intros k s. apply group_header_ok.
  - reflexivity.
  - eapply Forall_impl; [|exact H]. intros j Hj. split.
    + now apply user_key_complete.
    + intros s. now apply job_body_complete.
Qed.

Lemma job_body_ok_inv (j : Job) (s1 s2 : list block) :
  job_body upper config j s1 = Ok s2 ->
  forall k, In k ["NAME"; "JOBID"; "PARTITION"; "NODES"; "START_TIME"; "TIME";
                  "ACCOUNT"; "USER"] ->
            dict_mem j k = true.
Proof.
  unfold job_body. intros H.
  apply bind_ok in H as (name & Hname & H).
  apply bind_ok in H as (fields & Hfields & _).
  apply mapM_ok_iff in Hfields.
  assert (Hf : forall f, In f (get_formatters upper config) ->
                         exists t, f j = Ok t).
  { intros f Hin. destruct (Forall2_in_left _ _ _ f Hfields Hin) as (t & _ & Ht).
    apply bind_ok in Ht as (t' & Ht' & _). eauto. }
  assert (Hitem : forall k v, dict_item j k = Ok v -> dict_mem j k = true).
  { intros k v Hk. apply dict_item_ok in Hk. now rewrite dict_mem_get, Hk. }
  assert (Hsimple : forall d k,
             In (get_simple_formmatter d k) (get_formatters upper config) ->
             dict_mem j k = true).
  { intros d k Hin. destruct (Hf _ Hin) as (t & Ht).
    apply bind_ok in Ht as (v & Hv & _). eapply Hitem, Hv. }
  intros k Hk. simpl in Hk.
  destruct Hk as [<-|[<-|[<-|[<-|[<-|[<-|[<-|[<-|[]]]]]]]]].
  - eapply Hitem, Hname.
  - eapply Hsimple. unfold get_formatters. simpl. eauto.
  - eapply Hsimple. unfold get_formatters. simpl. eauto 6.
  - eapply Hsimple. unfold get_formatters. simpl. eauto 6.
  - eapply Hsimple. unfold get_formatters. simpl. eauto 7.
  - eapply Hsimple. unfold get_formatters. simpl. eauto 8.
  - destruct (Hf (project_formatter upper config)) as (t & Ht).
    { unfold get_formatters. simpl. eauto 10. }
    apply bind_ok in Ht as (v & Hv & _). eapply Hitem, Hv.
  - destruct (Hf (user_formatter config)) as (t & Ht).
    { unfold get_formatters. simpl. eauto 10. }
    apply bind_ok in Ht as (v & Hv & _). eapply Hitem, Hv.
Qed.

(** [get_blocks] returns a report exactly when every record has the eight
    fields that the report reads. *)
Lemma get_blocks_ok_iff (now : struct_time) (jobs : list Job) :
  (exists blocks, get_blocks upper now jobs config = Ok blocks)
  <-> Forall (fun j => complete_job j = true) jobs.
Proof.
  split.
  - intros (blocks & H). unfold get_blocks in H.
    apply for_groupby_ok_inv in H.
    eapply Forall_impl; [|exact H].
    intros j [_ (s1 & s2 & Hb)].
    unfold complete_job. apply forallb_forall. intros k Hk.
    apply (job_body_ok_inv j s1 s2 Hb). revert Hk. unfold report_fields.
    simpl. tauto.
  - intros H. eexists. now apply get_blocks_complete.
Qed.

Lemma job_body_raises (j : Job) (s : list block) (e : exception) :
  job_body upper config j s = Raise e -> exists k, e = KeyError k.
Proof.
  assert (Hfield : forall k (K : string -> result string) e0,
             bind (dict_item j k) K = Raise e0 ->
             (forall v, exists t, K v = Ok t) -> exists k, e0 = KeyError k).
  { intros k K e0 HK Htot. destruct (dict_item j k) as [v'|e1] eqn:Hk.
    - simpl in HK. destruct (Htot v') as (t' & Ht'). congruence.
    - simpl in HK. injection HK as HK. subst e1.
      apply dict_item_raise in Hk as [-> _]. eauto. }
  unfold job_body. intros H.
  destruct (dict_item j "NAME") as [name|e'] eqn:Hname; cbn [bind] in H.
  - match type of H with
    | bind ?m _ = _ => destruct m as [fields|e'] eqn:Hm
    end; cbn [bind] in H; [discriminate|].
    injection H as H. subst e'.
    apply mapM_raise in Hm as (f & Hin & Hf).
    destruct (f j) as [t|e''] eqn:Hfj; simpl in Hf; [discriminate|].
    injection Hf as Hf. subst e''.
    unfold get_formatters in Hin. simpl in Hin.
    repeat (destruct Hin as [<-|Hin];
            [ eapply (Hfield _ _ _ Hfj); intros v;
              cbn zeta; rewrite ?with_label_ok; cbn [bind]; eauto | ]).
    destruct Hin.
  - injection H as H. subst e'. apply dict_item_raise in Hname as [-> _]. eauto.
Qed.

(** [get_blocks] raises missing-key errors only. *)
Lemma get_blocks_raises (now : struct_time) (jobs : list Job) (e : exception) :
  get_blocks upper now jobs config = Raise e -> exists k, e = KeyError k.
Proof.
  unfold get_blocks.
  apply (for_groupby_raises user_key (group_header config)
           (job_body upper config) group_footer
           (fun e => exists k, e = KeyError k)).
  - intros j e' H. apply dict_item_raise in H as [-> _]. eauto.
  - intros k s e' H. rewrite group_header_ok in H. discriminate.
  - apply job_body_raises.
  - intros s e' H. discriminate.
Qed.

End GetBlocksFacts.

(** ** The groups *)

Lemma groupby_concat {A} (l : list (string * A)) :
  List.concat (map snd (groupby l)) = map snd l.
Proof.
  induction l as [|[k x] l IH]; simpl; [reflexivity|].
  destruct (groupby l) as [|[k' g] gs]; simpl in *.
  - now rewrite <- IH.
  - destruct (String.eqb k k'); simpl; now rewrite <- IH.
Qed.

(** Every group is a run: it is not empty and its elements have its key. *)
Lemma groupby_runs {A} (l : list (string * A)) (key : A -> string) :
  Forall (fun kx => key (snd kx) = fst kx) l ->
  Forall (fun kg => snd kg <> [] /\ Forall (fun x => key x = fst kg) (snd kg))
         (groupby l).
Proof.
  intros H. induction H as [|kx l Hk _ IH]; [constructor|].
  destruct kx as [k x]. cbn [fst snd] in Hk. simpl.
  destruct (groupby l) as [|[k' g] gs].
  - repeat constructor; [discriminate | exact Hk].
  - destruct (String.eqb_spec k k') as [->|Hne].
    + pose proof (Forall_inv IH) as [_ Hg].
      pose proof (Forall_inv_tail IH) as Hgs. cbn [fst snd] in Hg.
      constructor; [|exact Hgs]. cbn [fst snd]. split; [discriminate|].
      constructor; [exact Hk | exact Hg].
    + constructor; [|exact IH]. simpl. split; [discriminate|].
      repeat constructor. exact Hk.
Qed.

(** Neighbouring groups have different keys. *)
Lemma groupby_neighbours {A} (l : list (string * A)) (i : nat)
  (g g' : string * list A) :
  nth_error (groupby l) i = Some g ->
  nth_error (groupby l) (S i) = Some g' ->
  fst g <> fst g'.
Proof.
  revert i g g'; induction l as [|[k x] l IH]; intros i g g'; simpl.
  - destruct i; discriminate.
  - destruct (groupby l) as [|[k' g0] gs] eqn:E.
    + destruct i; simpl; [discriminate|]. destruct i; discriminate.
    + destruct (String.eqb_spec k k') as [->|Hne].
      * destruct i as [|i]; simpl.
        -- intros [= <-] Hg'. simpl. apply (IH 0 (k', g0) g' eq_refl Hg').
        -- intros Hg Hg'. apply (IH (S i) g g'); assumption.
      * destruct i as [|i]; simpl.
        -- intros [= <-] [= <-]. exact Hne.
        -- intros Hg Hg'. apply (IH i g g'); assumption.
Qed.

Lemma group_ids_cons {A} (n : nat) (k : string) (x : A) (l : list (string * A)) :
  group_ids n (groupby ((k, x) :: l))
  = n :: match l with
         | [] => []
         | (k', _) :: _ =>
             group_ids (if String.eqb k k' then n else S n) (groupby l)
         end.
Proof.
  destruct l as [|[k' x'] l].
  - reflexivity.
  - destruct (groupby_cons k' x' l) as (g & Hg).
    change (groupby ((k, x) :: (k', x') :: l))
      with (match groupby ((k', x') :: l) with
            | (k1, g1) :: gs =>
                if String.eqb k k1 then (k, x :: g1) :: gs
                else (k, [x]) :: (k1, g1) :: gs
            | [] => [(k, [x])]
            end).
    rewrite Hg. destruct (String.eqb k k'); reflexivity.
Qed.

Lemma group_ids_length {A} (n : nat) (l : list (string * A)) :
  List.length (group_ids n (groupby l)) = List.length l.
Proof.
  revert n; induction l as [|[k x] l IH]; intros n; [reflexivity|].
  rewrite group_ids_cons. simpl. f_equal.
  destruct l as [|[k' x'] l']; [reflexivity | apply IH].
Qed.

(** From a position to the next the group is the same when the keys are
    equal, and the next group when they differ. *)
Lemma group_ids_step {A} (l : list (string * A)) (n i : nat) (k k' : string) :
  nth_error (map fst l) i = Some k ->
  nth_error (map fst l) (S i) = Some k' ->
  exists a,
    nth_error (group_ids n (groupby l)) i = Some a
    /\ nth_error (group_ids n (groupby l)) (S i)
       = Some (if String.eqb k k' then a else S a).
Proof.
  revert n i; induction l as [|[k0 x] l IH]; intros n i Hk Hk'.
  - destruct i; discriminate.
  - rewrite group_ids_cons. destruct l as [|[k1 x1] l'].
    + destruct i; simpl in Hk'; [discriminate | destruct i; discriminate].
    + destruct i as [|i].
      * simpl in Hk, Hk'. injection Hk as <-. injection Hk' as <-.
        exists n. split; [reflexivity|].
        rewrite group_ids_cons. reflexivity.
      * simpl in Hk, Hk'.
        destruct (IH (if String.eqb k0 k1 then n else S n) i Hk Hk')
          as (a & Ha & Ha').
        exists a. split; [exact Ha | exact Ha'].
Qed.

(** The groups of the positions grow with the positions. *)
Lemma group_ids_monotone {A} (l : list (string * A)) (n i j a b : nat) :
  i <= j ->
  nth_error (group_ids n (groupby l)) i = Some a ->
  nth_error (group_ids n (groupby l)) j = Some b ->
  a <= b.
Proof.
  intros Hij Ha. revert b. induction Hij as [|j Hij IH]; intros b Hb.
  - rewrite Ha in Hb. injection Hb as <-. lia.
  - assert (Hj : S j < List.length l).
    { rewrite <- (group_ids_length n l). apply nth_error_Some. congruence. }
    destruct (nth_error (map fst l) j) as [k|] eqn:Ek.
    2:{ apply nth_error_None in Ek. rewrite length_map in Ek. lia. }
    destruct (nth_error (map fst l) (S j)) as [k'|] eqn:Ek'.
    2:{ apply nth_error_None in Ek'. rewrite length_map in Ek'. lia. }
    destruct (group_ids_step l n j k k' Ek Ek') as (c & Hc & Hc').
    rewrite Hb in Hc'. injection Hc' as ->.
    specialize (IH c Hc). destruct (String.eqb k k'); lia.
Qed.

(** Two positions with different keys are in different groups, the later
    position in a later group. *)
Lemma group_ids_change {A} (l : list (string * A)) (n i j : nat) (k k' : string) :
  i <= j ->
  nth_error (map fst l) i = Some k ->
  nth_error (map fst l) j = Some k' ->
  k <> k' ->
  exists a b,
    nth_error (group_ids n (groupby l)) i = Some a
    /\ nth_error (group_ids n (groupby l)) j = Some b
    /\ a < b.
Proof.
  intros Hij Hk. revert k'. induction Hij as [|j Hij IH]; intros k' Hk' Hne.
  - congruence.
  - destruct (nth_error (map fst l) j) as [kj|] eqn:Ej.
    2:{ apply nth_error_None in Ej.
        assert (S j < List.length (map fst l))
          by (apply nth_error_Some; congruence). lia. }
    destruct (group_ids_step l n j kj k' Ej Hk') as (c & Hc & Hc').
    destruct (String.eqb_spec kj k') as [->|Hne'].
    + destruct (IH k' eq_refl Hne) as (a & b & Ha & Hb & Hab).
      rewrite Hc in Hb. injection Hb as <-.
      exists a, c. repeat split; assumption.
    + assert (Hi : exists a, nth_error (group_ids n (groupby l)) i = Some a).
      { destruct (nth_error (group_ids n (groupby l)) i) as [a|] eqn:Ea;
          [eauto|]. apply nth_error_None in Ea.
        assert (j < List.length (group_ids n (groupby l)))
          by (apply nth_error_Some; congruence). lia. }
      destruct Hi as (a & Ha).
      pose proof (group_ids_monotone l n i j a c Hij Ha Hc) as Hac.
      exists a, (S c). repeat split; [exact Ha | exact Hc' | lia].
Qed.

Lemma user_at_keys (jobs : list Job) (i : nat) :
  nth_error (map fst (map (fun j => (field j "USER", j)) jobs)) i
  = user_at jobs i.
Proof.
  unfold user_at. rewrite map_map. cbn [fst]. apply nth_error_map.
Qed.

Lemma user_groups_concat (jobs : list Job) :
  List.concat (map snd (user_groups jobs)) = jobs.
Proof.
  unfold user_groups. rewrite groupby_concat, map_map. cbn [snd].
  apply map_id.
Qed.

(** C4. The records are grouped by runs of the same user: the groups of the
    report are, in order, the runs of [user_groups]; a group is a non-empty
    run of records of one user and neighbouring groups have different users;
    two neighbouring records of the same user are in the same group; two
    records of one user with a record of another user between them are in
    two groups; [alice, bob, alice] makes three groups in that order. *)
Theorem user_groups_are_runs
  (upper : string -> string) (config : Config) (now : struct_time)
  (jobs : list Job) :
  Forall (fun j => complete_job j = true) jobs ->
  get_blocks upper now jobs config
  = Ok (assemble (map (group_node upper config) (user_groups jobs)) now)
  /\ List.concat (map snd (user_groups jobs)) = jobs
  /\ Forall (fun kg => snd kg <> []
                       /\ Forall (fun j => field j "USER" = fst kg) (snd kg))
            (user_groups jobs)
  /\ (forall i g g',
         nth_error (user_groups jobs) i = Some g ->
         nth_error (user_groups jobs) (S i) = Some g' ->
         fst g <> fst g')
  /\ (forall i u,
         user_at jobs i = Some u -> user_at jobs (S i) = Some u ->
         exists g, group_of jobs i = Some g /\ group_of jobs (S i) = Some g)
  /\ (forall i j k u v,
         i < j -> j < k ->
         user_at jobs i = Some u -> user_at jobs j = Some v ->
         user_at jobs k = Some u -> u <> v ->
         exists g g',
           group_of jobs i = Some g /\ group_of jobs k = Some g' /\ g < g')
  /\ (forall ja jb jc,
         jobs = [ja; jb; jc] ->
         field ja "USER" = "alice" -> field jb "USER" = "bob" ->
         field jc "USER" = "alice" ->
         user_groups jobs = [("alice", [ja]); ("bob", [jb]); ("alice", [jc])]).
Proof.
  intros Hc.
  split; [now apply get_blocks_complete|].
  split; [apply user_groups_concat|].
  split.
  { apply groupby_runs. apply Forall_forall. intros kx Hin.
    apply in_map_iff in Hin as (j & <- & _). reflexivity. }
  split; [apply groupby_neighbours|].
  split.
  { intros i u Hi Hi'. unfold group_of, user_groups.
    rewrite <- user_at_keys in Hi, Hi'.
    destruct (group_ids_step _ 0 i u u Hi Hi') as (a & Ha & Ha').
    rewrite String.eqb_refl in Ha'. eauto. }
  split.
  { intros i j k u v Hij Hjk Hi Hj Hk Huv. unfold group_of, user_groups.
    rewrite <- user_at_keys in Hi, Hj, Hk.
    destruct (group_ids_change _ 0 i j u v (Nat.lt_le_incl _ _ Hij) Hi Hj Huv)
      as (a & b & Ha & Hb & Hab).
    assert (Hc' : exists c, nth_error
                (group_ids 0 (groupby (map (fun j => (field j "USER", j)) jobs)))
                k = Some c).
    { match goal with
      | |- exists c, ?o = Some c => destruct o as [c|] eqn:Ec; [eauto|]
      end.
      apply nth_error_None in Ec. rewrite group_ids_length in Ec.
      assert (k < List.length (map fst (map (fun j => (field j "USER", j)) jobs)))
        by (apply nth_error_Some; congruence).
      rewrite length_map in H. lia. }
    destruct Hc' as (c & Hk').
    pose proof (group_ids_monotone _ 0 j k b c (Nat.lt_le_incl _ _ Hjk) Hb Hk').
    exists a, c. repeat split; [exact Ha | exact Hk' | lia]. }
  intros ja jb jc -> Ha Hb Hc'. unfold user_groups. simpl.
  rewrite Ha, Hb, Hc'. reflexivity.
Qed.

Lemma user_groups_are_runs_witness :
  Forall (fun j => complete_job j = true) sample_jobs
  /\ user_groups sample_jobs
     = [ ("alice", [sample_job "1" "build" "alice" "phys01"]);
         ("bob", [sample_job "2" "" "bob" "unknown01"]);
         ("alice", [sample_job "3" "train" "alice" "PHYS01"]) ].
Proof.
  assert (H : Forall (fun j => complete_job j = true) sample_jobs)
    by (repeat constructor).
  split; [exact H|].
  destruct (user_groups_are_runs ascii_upper sample_config sample_time
              sample_jobs H) as (_ & _ & _ & _ & _ & _ & Habc).
  apply (Habc _ _ _ eq_refl); reflexivity.
Defined.

(** ** Counting the job nodes *)

Lemma count_job_nodes_app (l l' : list block) :
  count_job_nodes (l ++ l') = count_job_nodes l + count_job_nodes l'.
Proof. unfold count_job_nodes. now rewrite filter_app, length_app. Qed.

Lemma count_job_nodes_jobs (ns : list JobNode) :
  count_job_nodes (flat_map job_node_blocks ns) = List.length ns.
Proof.
  induction ns as [|n ns IH]; [reflexivity|].
  cbn [flat_map]. rewrite count_job_nodes_app, IH. reflexivity.
Qed.

Lemma count_job_nodes_groups (gs : list UserGroup) :
  count_job_nodes (flat_map user_group_blocks gs)
  = list_sum (map (fun g => List.length (group_jobs g)) gs).
Proof.
  induction gs as [|g gs IH]; [reflexivity|].
  cbn [flat_map map list_sum]. rewrite count_job_nodes_app, IH. f_equal.
  unfold user_group_blocks.
  change (section ?t :: ?l)%list with ([section t] ++ l)%list.
  rewrite !count_job_nodes_app, count_job_nodes_jobs.
  unfold count_job_nodes. simpl. lia.
Qed.

Lemma build_jobs (upper : string -> string) (config : Config)
  (jobs : list Job) :
  List.concat (map group_jobs (build upper config jobs))
  = map (job_node upper config) jobs.
Proof.
  unfold build. rewrite map_map.
  rewrite <- (user_groups_concat jobs) at 2.
  rewrite concat_map, map_map. reflexivity.
Qed.

(** C5. The report drops no record and repeats none: on records that have
    the fields of the report, [get_blocks] returns a report whose number of
    job nodes, summed over the user groups, is the number of records; the
    job nodes of the groups, read in order, are the job nodes of the
    records, one for each record. *)
Theorem get_blocks_no_filtering
  (upper : string -> string) (config : Config) (now : struct_time)
  (jobs : list Job) :
  Forall (fun j => complete_job j = true) jobs ->
  exists blocks,
    get_blocks upper now jobs config = Ok blocks
    /\ blocks = assemble (build upper config jobs) now
    /\ count_job_nodes blocks = List.length jobs
    /\ list_sum (map (fun g => List.length (group_jobs g))
                     (build upper config jobs)) = List.length jobs
    /\ List.concat (map group_jobs (build upper config jobs))
       = map (job_node upper config) jobs.
Proof.
  intros Hc. exists (assemble (build upper config jobs) now).
  assert (Hsum : list_sum (map (fun g => List.length (group_jobs g))
                               (build upper config jobs)) = List.length jobs).
  { rewrite <- (length_map (job_node upper config) jobs), <- build_jobs.
    now rewrite length_concat, map_map. }
  split; [now apply get_blocks_complete|].
  split; [reflexivity|].
  split; [|split; [exact Hsum | apply build_jobs]].
  unfold assemble. rewrite count_job_nodes_app, count_job_nodes_groups, Hsum.
  reflexivity.
Qed.

Lemma get_blocks_no_filtering_witness :
  Forall (fun j => complete_job j = true) sample_jobs
  /\ exists blocks,
       get_blocks ascii_upper sample_time sample_jobs sample_config = Ok blocks
       /\ blocks = assemble (build ascii_upper sample_config sample_jobs)
                            sample_time
       /\ count_job_nodes blocks = List.length sample_jobs
       /\ list_sum (map (fun g => List.length (group_jobs g))
                        (build ascii_upper sample_config sample_jobs))
          = List.length sample_jobs
       /\ List.concat (map group_jobs
                           (build ascii_upper sample_config sample_jobs))
          = map (job_node ascii_upper sample_config) sample_jobs.
Proof.
  assert (H : Forall (fun j => complete_job j = true) sample_jobs)
    by (repeat constructor).
  split; [exact H|].
  exact (get_blocks_no_filtering ascii_upper sample_config sample_time
           sample_jobs H).
Defined.

(** ** The lookup tables *)

Lemma string_length_append (s1 s2 : string) :
  String.length (s1 ++ s2) = String.length s1 + String.length s2.
Proof. induction s1 as [|c s1 IH]; simpl; [reflexivity | now rewrite IH]. Qed.

Lemma string_append_assoc (s1 s2 s3 : string) :
  (s1 ++ s2) ++ s3 = s1 ++ (s2 ++ s3).
Proof. induction s1 as [|c s1 IH]; simpl; [reflexivity | now rewrite IH]. Qed.

Lemma string_append_nil (s : string) : s ++ EmptyString = s.
Proof. induction s as [|c s IH]; simpl; [reflexivity | now rewrite IH]. Qed.

Lemma assoc_last_in (pairs : list (string * string)) (k v : string) :
  assoc_last pairs k = Some v -> In (k, v) pairs.
Proof.
  intros H. apply assoc_last_nth in H as (n & Hn & _).
  now apply nth_error_In in Hn.
Qed.

Lemma upper_keys_some (upper : string -> string) (m : dict) (x label : string) :
  dict_get (upper_keys upper m) x = Some label ->
  exists key, In (key, label) m /\ upper key = x.
Proof.
  unfold upper_keys, dict_items. rewrite dict_of_get. intros H.
  apply assoc_last_in, in_map_iff in H as ([key l] & [= <- <-] & Hin).
  now exists key.
Qed.

Lemma upper_keys_none (upper : string -> string) (m : dict) (x : string) :
  dict_get (upper_keys upper m) x = None
  <-> forall key label, In (key, label) m -> upper key <> x.
Proof.
  unfold upper_keys, dict_items. rewrite dict_of_get, assoc_last_none.
  rewrite map_map. cbn [fst]. split.
  - intros H key label Hin Heq. apply H. apply in_map_iff.
    exists (key, label). now split.
  - intros H Hin. apply in_map_iff in Hin as ([key label] & Heq & Hin).
    now apply (H key label).
Qed.

Lemma project_formatter_account (upper : string -> string) (config : Config)
  (job : Job) (account : string) :
  dict_get job "ACCOUNT" = Some account ->
  project_formatter upper config job
  = Ok ("📜 計畫ID：" ++ labelled (upper_keys upper (project_map config))
                               (upper account)).
Proof.
  intros H. unfold project_formatter, dict_item. rewrite H. cbn [bind].
  rewrite with_label_ok. reflexivity.
Qed.

(** C6. For a record with an [ACCOUNT] field the project annotator
    upper-cases the account and looks it up among the upper-cased keys of
    the project map: with a label it renders [ACCOUNT(label)], without one
    the upper-cased account, after the fixed prefix.  A label, when found,
    is the label of a key equal to the account up to case, and none is found
    exactly when no key is.  Two accounts equal up to case are rendered the
    same; [abc] and [ABC] get the label of the key [ABC] or [abc]. *)
Theorem project_formatter_case_insensitive
  (upper : string -> string) (config : Config) (job : Job) (account : string) :
  dict_get job "ACCOUNT" = Some account ->
  project_formatter upper config job
  = Ok ("📜 計畫ID：" ++ labelled (upper_keys upper (project_map config))
                               (upper account))
  /\ (forall label,
         dict_get (upper_keys upper (project_map config)) (upper account)
         = Some label ->
         labelled (upper_keys upper (project_map config)) (upper account)
         = upper account ++ "(" ++ label ++ ")"
         /\ exists key, In (key, label) (project_map config)
                        /\ upper key = upper account)
  /\ (labelled (upper_keys upper (project_map config)) (upper account)
      = upper account
      <-> forall key label,
            In (key, label) (project_map config) -> upper key <> upper account)
  /\ (forall job' account',
         dict_get job' "ACCOUNT" = Some account' ->
         upper account' = upper account ->
         project_formatter upper config job'
         = project_formatter upper config job)
  /\ (forall label,
         upper "abc" = "ABC" -> upper "ABC" = "ABC" ->
         account = "abc" \/ account = "ABC" ->
         project_map config = [("ABC", label)]
         \/ project_map config = [("abc", label)] ->
         project_formatter upper config job
         = Ok ("📜 計畫ID：ABC(" ++ label ++ ")")).
Proof.
  intros Hacc.
  split; [now apply project_formatter_account|].
  split.
  { intros label Hl. split.
    - unfold labelled. now rewrite Hl.
    - now apply upper_keys_some. }
  split.
  { rewrite <- upper_keys_none. unfold labelled.
    destruct (dict_get (upper_keys upper (project_map config)) (upper account))
      as [label|] eqn:E.
    - split; [|discriminate]. intros H. exfalso.
      assert (Hlen : String.length (upper account ++ "(" ++ label ++ ")")
                     = String.length (upper account)) by now rewrite H.
      rewrite !string_length_append in Hlen. simpl in Hlen. lia.
    - tauto. }
  split.
  { intros job' account' Hacc' Heq.
    rewrite (project_formatter_account _ _ _ _ Hacc),
            (project_formatter_account _ _ _ _ Hacc').
    now rewrite Heq. }
  intros label Habc HABC Ha Hm.
  rewrite (project_formatter_account _ _ _ _ Hacc).
  assert (Hu : upper account = "ABC") by (destruct Ha as [->| ->]; assumption).
  rewrite Hu. unfold labelled, upper_keys, dict_items.
  destruct Hm as [-> | ->]; cbn [map fst snd]; rewrite ?Habc, ?HABC;
    reflexivity.
Qed.

Lemma project_formatter_case_insensitive_witness :
  project_formatter ascii_upper
    {| project_map := [("abc", "Physics")]; user_map := [] |}
    [("ACCOUNT", "ABC")]
  = Ok ("📜 計畫ID：ABC(" ++ "Physics" ++ ")").
Proof.
  destruct (project_formatter_case_insensitive ascii_upper
              {| project_map := [("abc", "Physics")]; user_map := [] |}
              [("ACCOUNT", "ABC")] "ABC" eq_refl) as (_ & _ & _ & _ & H).
  apply H; [reflexivity | reflexivity | now right | now right].
Defined.

Lemma labelled_absent (m : dict) (x : string) :
  ~ In x (dict_keys m) -> labelled m x = x.
Proof.
  intros H. unfold labelled.
  destruct (dict_get m x) as [l|] eqn:E; [|reflexivity].
  exfalso. apply H, dict_get_in_keys. congruence.
Qed.

(** C7. Unknown identifiers and empty names are displayed by a fallback and
    raise nothing: a user that is no key of the user map (by equality of
    strings) is displayed as the raw identifier, in the user field and in
    the label of the group; an account that no key of the project map
    equals up to case is displayed (upper-cased) without a label; an empty
    name gives the job node the title of the placeholder; and the report of
    records that have their fields is returned whatever the tables hold. *)
Theorem formatters_fall_back
  (upper : string -> string) (config : Config) (job : Job) :
  (forall user,
      dict_get job "USER" = Some user ->
      ~ In user (dict_keys (user_map config)) ->
      user_formatter config job = Ok ("🤪 使用者ID：" ++ user)
      /\ forall blocks,
           group_header config user blocks
           = Ok (blocks
                 ++ [section (mrkdwn ("🤪 *" ++ user
                                      ++ "* 有以下任務正在運行："))])%list)
  /\ (forall account,
         dict_get job "ACCOUNT" = Some account ->
         (forall key label,
             In (key, label) (project_map config) ->
             upper key <> upper account) ->
         project_formatter upper config job
         = Ok ("📜 計畫ID：" ++ upper account))
  /\ (complete_job job = true ->
      dict_get job "NAME" = Some EmptyString ->
      forall blocks,
        job_body upper config job blocks
        = Ok (blocks
              ++ [ section (mrkdwn "🛠️ *_未命名_*");
                   section_fields
                     (map (fun s => plain_text s true)
                          (job_fields (job_node upper config job))) ])%list)
  /\ (forall now jobs,
         Forall (fun j => complete_job j = true) jobs ->
         exists blocks, get_blocks upper now jobs config = Ok blocks).
Proof.
  split.
  { intros user Hu Habs. split.
    - unfold user_formatter, dict_item. rewrite Hu. cbn [bind].
      rewrite with_label_ok, (labelled_absent _ _ Habs). reflexivity.
    - intros blocks. rewrite group_header_ok, (labelled_absent _ _ Habs).
      reflexivity. }
  split.
  { intros account Ha Habs.
    rewrite (project_formatter_account _ _ _ _ Ha).
    unfold labelled. apply upper_keys_none in Habs. now rewrite Habs. }
  split.
  { intros Hc Hname blocks. rewrite (job_body_complete _ _ _ _ Hc).
    unfold job_node_blocks, job_node. cbn [job_title job_fields].
    unfold field. rewrite Hname. reflexivity. }
  intros now jobs Hc. now apply get_blocks_ok_iff.
Qed.

Lemma formatters_fall_back_witness :
  user_formatter sample_config (sample_job "2" "" "alice" "unknown01")
  = Ok "🤪 使用者ID：alice"
  /\ project_formatter ascii_upper sample_config
       (sample_job "2" "" "alice" "unknown01")
     = Ok "📜 計畫ID：UNKNOWN01"
  /\ exists fields,
       job_body ascii_upper sample_config
         (sample_job "2" "" "alice" "unknown01") []
       = Ok [section (mrkdwn "🛠️ *_未命名_*"); section_fields fields].
Proof.
  destruct (formatters_fall_back ascii_upper sample_config
              (sample_job "2" "" "alice" "unknown01"))
    as (Huser & Hproject & Hname & _).
  split; [|split].
  - apply (Huser "alice" eq_refl). simpl. intuition discriminate.
  - apply (Hproject "unknown01" eq_refl).
    intros key label [[= <- <-]|[]]. discriminate.
  - eexists. apply (Hname eq_refl eq_refl []).
Defined.

(** ** Missing fields *)

Lemma simple_fields_formatters (upper : string -> string) (config : Config)
  (display field_name : string) :
  In (display, field_name) simple_fields ->
  In (get_simple_formmatter display field_name) (get_formatters upper config)
  /\ In field_name report_fields.
Proof.
  unfold simple_fields, get_formatters, report_fields. simpl.
  intros H.
  repeat (destruct H as [[= <- <-]|H]; [split; tauto|]).
  destruct H.
Qed.

(** C8. A record that lacks the field of one of the six simple annotators
    makes that annotator raise the missing-key error of the field; the body
    of the loop over the jobs then raises a missing-key error, and so does
    [get_blocks] on every sequence that holds the record: no report is
    returned, and the field is neither left out nor given a default. *)
Theorem simple_annotator_missing_field
  (upper : string -> string) (config : Config) (now : struct_time)
  (job : Job) (display field_name : string) :
  In (display, field_name) simple_fields ->
  dict_get job field_name = None ->
  get_simple_formmatter display field_name job = Raise (KeyError field_name)
  /\ In (get_simple_formmatter display field_name)
        (get_formatters upper config)
  /\ (forall blocks,
         exists key, job_body upper config job blocks = Raise (KeyError key))
  /\ (forall jobs,
         In job jobs ->
         exists key, get_blocks upper now jobs config = Raise (KeyError key)).
Proof.
  intros Hin Hnone.
  destruct (simple_fields_formatters upper config _ _ Hin) as [Hf Hr].
  assert (Hmem : dict_mem job field_name = false)
    by now rewrite dict_mem_get, Hnone.
  split.
  { unfold get_simple_formmatter, dict_item. now rewrite Hnone. }
  split; [exact Hf|].
  split.
  - intros blocks.
    destruct (job_body upper config job blocks) as [s|e] eqn:E.
    + exfalso. pose proof (job_body_ok_inv _ _ _ _ _ E field_name) as H.
      rewrite Hmem in H. enough (false = true) by discriminate. apply H.
      revert Hr. unfold report_fields. simpl. tauto.
    + destruct (job_body_raises _ _ _ _ _ E) as (key & ->). eauto.
  - intros jobs Hjob.
    destruct (get_blocks upper now jobs config) as [blocks|e] eqn:E.
    + exfalso.
      assert (Hc : Forall (fun j => complete_job j = true) jobs)
        by (apply (get_blocks_ok_iff upper config now); eauto).
      rewrite Forall_forall in Hc. specialize (Hc job Hjob).
      rewrite (complete_job_mem _ _ Hc Hr) in Hmem. discriminate.
    + destruct (get_blocks_raises _ _ _ _ _ E) as (key & ->). eauto.
Qed.

Lemma simple_annotator_missing_field_witness :
  get_simple_formmatter "⚓ 分區名稱" "PARTITION"
    [("JOBID", "1"); ("NAME", "build"); ("USER", "alice")]
  = Raise (KeyError "PARTITION")
  /\ exists key,
       get_blocks ascii_upper sample_time
         [ sample_job "1" "build" "alice" "phys01";
           [("JOBID", "1"); ("NAME", "build"); ("USER", "alice")] ]
         sample_config
       = Raise (KeyError key).
Proof.
  destruct (simple_annotator_missing_field ascii_upper sample_config
              sample_time
              [("JOBID", "1"); ("NAME", "build"); ("USER", "alice")]
              "⚓ 分區名稱" "PARTITION")
    as (Hf & _ & _ & Hb).
  - simpl. tauto.
  - reflexivity.
  - split; [exact Hf|]. apply Hb. simpl. tauto.
Defined.

(** ** The time stamp *)

Lemma decimal_digits_step (fuel n : nat) (acc : string) :
  decimal_digits (S fuel) n acc
  = if (n <? 10)%nat then String (digit n) acc
    else decimal_digits fuel (n / 10) (String (digit n) acc).
Proof. reflexivity. Qed.

Lemma fmt_Y_four_digits (y : nat) :
  1000 <= y < 10 * 1000 ->
  fmt_Y y
  = String (digit (y / 1000)) (String (digit (y / 100))
      (String (digit (y / 10)) (String (digit y) EmptyString))).
Proof.
  intros [Hlo Hhi]. unfold fmt_Y.
  replace (S y) with (S (S (S (S (y - 3))))) by lia.
  assert (H1 : (y <? 10)%nat = false) by (apply Nat.ltb_ge; lia).
  assert (H2 : (y / 10 <? 10)%nat = false).
  { apply Nat.ltb_ge. apply Nat.div_le_lower_bound; lia. }
  assert (H3 : (y / 10 / 10 <? 10)%nat = false).
  { apply Nat.ltb_ge. rewrite Nat.Div0.div_div.
    apply Nat.div_le_lower_bound; lia. }
  assert (H4 : (y / 10 / 10 / 10 <? 10)%nat = true).
  { apply Nat.ltb_lt. rewrite !Nat.Div0.div_div.
    apply Nat.Div0.div_lt_upper_bound; lia. }
  rewrite decimal_digits_step, H1, decimal_digits_step, H2,
          decimal_digits_step, H3, decimal_digits_step, H4.
  rewrite !Nat.Div0.div_div. reflexivity.
Qed.

Lemma digit_is_digit (n : nat) : is_digit (digit n) = true.
Proof.
  unfold digit. pose proof (Nat.mod_upper_bound n 10) as H.
  remember (n mod 10) as d eqn:E. clear E.
  do 10 (destruct d as [|d]; [reflexivity|]). lia.
Qed.

Lemma strftime_format (t : struct_time) :
  1000 <= tm_year t < 10 * 1000 ->
  matches_format "dddd/dd/dd dd:dd:dd" (strftime t) = true.
Proof.
  intros Hy. unfold strftime, fmt_2. rewrite (fmt_Y_four_digits _ Hy).
  repeat match goal with
         | |- context [digit ?n] =>
             generalize (digit_is_digit n); generalize (digit n); intros ? ?
         end.
  simpl.
  repeat match goal with
         | H : is_digit _ = true |- _ => rewrite H; clear H
         end.
  reflexivity.
Qed.

Lemma digit_value (n : nat) : nat_of_ascii (digit n) - 48 = n mod 10.
Proof.
  unfold digit. pose proof (Nat.mod_upper_bound n 10) as H.
  remember (n mod 10) as d eqn:E. clear E.
  do 10 (destruct d as [|d]; [reflexivity|]). lia.
Qed.

Lemma read_digits_digit (a n : nat) (s : string) :
  read_digits a (String (digit n) s) = read_digits (a * 10 + n mod 10) s.
Proof. cbn [read_digits]. now rewrite digit_is_digit, digit_value. Qed.

(** The digits that [decimal_digits] writes before [acc] read back as
    [n]. *)
Lemma decimal_digits_reads (fuel n : nat) (acc : string) :
  n < fuel ->
  exists d,
    decimal_digits fuel n acc = d ++ acc
    /\ d <> EmptyString
    /\ forall a,
         read_digits a (d ++ acc)
         = read_digits (a * 10 ^ String.length d + n) acc.
Proof.
  revert n acc; induction fuel as [|fuel IH]; intros n acc Hn; [lia|].
  rewrite decimal_digits_step. destruct (Nat.ltb_spec n 10) as [Hlt|Hge].
  - exists (String (digit n) EmptyString).
    split; [reflexivity|]. split; [discriminate|].
    intros a. cbn [append String.length]. rewrite read_digits_digit.
    rewrite (Nat.mod_small n 10 Hlt), Nat.pow_1_r. reflexivity.
  - assert (Hdiv : n / 10 < fuel).
    { pose proof (Nat.div_lt n 10). lia. }
    destruct (IH (n / 10) (String (digit n) acc) Hdiv) as (d & Hd & _ & Hr).
    exists (d ++ String (digit n) EmptyString).
    rewrite string_append_assoc. cbn [append].
    split; [exact Hd|]. split; [destruct d; discriminate|].
    intros a. rewrite Hr, read_digits_digit, string_length_append.
    cbn [String.length].
    replace (String.length d + 1) with (S (String.length d)) by lia.
    rewrite Nat.pow_succ_r'.
    replace ((a * 10 ^ String.length d + n / 10) * 10 + n mod 10)
      with (a * (10 * 10 ^ String.length d) + n);
      [reflexivity|].
    pose proof (Nat.div_mod_eq n 10). lia.
Qed.

(** [%Y] writes the year. *)
Lemma fmt_Y_reads (y : nat) : read_decimal (fmt_Y y) = Some y.
Proof.
  unfold fmt_Y.
  destruct (decimal_digits_reads (S y) y EmptyString (Nat.lt_succ_diag_r y))
    as (d & Hd & Hne & Hr).
  rewrite Hd. specialize (Hr 0). rewrite string_append_nil in *.
  destruct d as [|c d]; [congruence|]. exact Hr.
Qed.

Lemma fmt_Y_length (y : nat) :
  1000 <= y < 10 * 1000 -> String.length (fmt_Y y) = 4.
Proof. intros H. now rewrite (fmt_Y_four_digits y H). Qed.

(** [%m] and the like write a number below 100 on two digits. *)
Lemma fmt_2_writes (n : nat) : n < 100 -> writes_number 2 n (fmt_2 n).
Proof.
  intros H. split; [reflexivity|].
  unfold fmt_2, read_decimal. rewrite !read_digits_digit. cbn [read_digits].
  f_equal. pose proof (Nat.div_mod_eq n 10).
  assert (n / 10 < 10) by (apply Nat.Div0.div_lt_upper_bound; lia).
  rewrite (Nat.mod_small (n / 10) 10) by assumption. lia.
Qed.

(** C9. On records that have their fields, the report of [get_blocks] is the
    one that the specification assembles from the groups it builds: the
    header node (the fixed title, then the time stamp), a divider, then for
    each user group in order the section of its label, for each of its job
    nodes the section of the title and the list of the fields, and a
    divider.  The fields of a job node are the eight annotators applied in
    their order, and its title is the name of the job, or the placeholder
    for an empty name.  The time stamp is the given time: the year, the
    month, the day, the hour, the minute and the second in decimal, in this
    order, the year on four digits when it has four, the others on two,
    separated as in YYYY/MM/DD HH:MM:SS.  Without records, as for an input
    of a header line only, the report is the header node and the
    divider. *)
Theorem get_blocks_assembles
  (upper : string -> string) (config : Config) (now : struct_time)
  (jobs : list Job) :
  Forall (fun j => complete_job j = true) jobs ->
  get_blocks upper now jobs config
  = Ok ([ header (plain_text "📋 TWCC HPC 任務例行檢查" true);
          section (mrkdwn ("⌚ 檢查時間： *" ++ strftime now ++ "*"));
          divider ]
        ++ flat_map
             (fun g =>
                [section (mrkdwn ("🤪 *" ++ group_label g
                                  ++ "* 有以下任務正在運行："))]
                ++ flat_map
                     (fun n =>
                        [ section (mrkdwn ("🛠️ *" ++ job_title n ++ "*"));
                          section_fields
                            (map (fun s => plain_text s true) (job_fields n)) ])
                     (group_jobs g)
                ++ [divider])
             (build upper config jobs))%list
  /\ get_blocks upper now jobs config
     = Ok (assemble (build upper config jobs) now)
  /\ (forall j,
         job_fields (job_node upper config j)
         = [ "🪪 任務ID：" ++ field j "JOBID";
             "🛠️ 任務名稱：" ++ field j "NAME";
             "⚓ 分區名稱：" ++ field j "PARTITION";
             "🖥️ 節點數量：" ++ field j "NODES";
             "⏱ 開始時間：" ++ field j "START_TIME";
             "⏳ 運行時間：" ++ field j "TIME";
             project_annotator upper config j;
             user_annotator config j ])
  /\ (forall j,
         (field j "NAME" <> EmptyString ->
          job_title (job_node upper config j) = field j "NAME")
         /\ (field j "NAME" = EmptyString ->
             job_title (job_node upper config j) = "_未命名_"))
  /\ (two_digit_fields now ->
      exists year mon day hour min sec,
        strftime now
        = year ++ "/" ++ mon ++ "/" ++ day ++ " "
          ++ hour ++ ":" ++ min ++ ":" ++ sec
        /\ read_decimal year = Some (tm_year now)
        /\ (1000 <= tm_year now < 10 * 1000 -> String.length year = 4)
        /\ writes_number 2 (tm_mon now) mon
        /\ writes_number 2 (tm_mday now) day
        /\ writes_number 2 (tm_hour now) hour
        /\ writes_number 2 (tm_min now) min
        /\ writes_number 2 (tm_sec now) sec)
  /\ (1000 <= tm_year now < 10 * 1000 ->
      matches_format "dddd/dd/dd dd:dd:dd" (strftime now) = true)
  /\ (jobs = [] ->
      get_blocks upper now jobs config
      = Ok [ header (plain_text "📋 TWCC HPC 任務例行檢查" true);
             section (mrkdwn ("⌚ 檢查時間： *" ++ strftime now ++ "*"));
             divider ])
  /\ (forall output hline,
         split newline (strip output) = [hline] ->
         parse_squeue_output output = Ok []).
Proof.
  intros Hc.
  split; [|split]; [| now apply get_blocks_complete |].
  { rewrite (get_blocks_complete _ _ _ _ Hc). reflexivity. }
  split; [reflexivity|].
  split.
  { intros j. unfold job_node. cbn [job_title].
    destruct (field j "NAME"); split; intros H;
      first [reflexivity | congruence]. }
  split.
  { intros (Hmon & Hday & Hhour & Hmin & Hsec).
    exists (fmt_Y (tm_year now)), (fmt_2 (tm_mon now)), (fmt_2 (tm_mday now)),
           (fmt_2 (tm_hour now)), (fmt_2 (tm_min now)), (fmt_2 (tm_sec now)).
    split; [reflexivity|]. split; [apply fmt_Y_reads|].
    split; [apply fmt_Y_length|].
    repeat split; now apply fmt_2_writes. }
  split; [apply strftime_format|].
  split; [intros ->; reflexivity|].
  intros output hline H. now apply (parse_squeue_output_lines output hline []).
Qed.

Lemma get_blocks_assembles_witness :
  Forall (fun j => complete_job j = true) sample_jobs
  /\ get_blocks ascii_upper sample_time sample_jobs sample_config
     = Ok (assemble (build ascii_upper sample_config sample_jobs) sample_time)
  /\ (exists year mon day hour min sec,
        strftime sample_time
        = year ++ "/" ++ mon ++ "/" ++ day ++ " "
          ++ hour ++ ":" ++ min ++ ":" ++ sec
        /\ read_decimal year = Some 2026
        /\ (1000 <= tm_year sample_time < 10 * 1000 -> String.length year = 4)
        /\ writes_number 2 11 mon
        /\ writes_number 2 3 day
        /\ writes_number 2 9 hour
        /\ writes_number 2 5 min
        /\ writes_number 2 7 sec)
  /\ matches_format "dddd/dd/dd dd:dd:dd" (strftime sample_time) = true.
Proof.
  assert (H : Forall (fun j => complete_job j = true) sample_jobs)
    by (repeat constructor).
  destruct (get_blocks_assembles ascii_upper sample_config sample_time
              sample_jobs H) as (_ & Hb & _ & _ & Hs & Ht & _).
  split; [exact H|]. split; [exact Hb|]. split.
  - apply Hs. unfold two_digit_fields. simpl. lia.
  - apply Ht. simpl. lia.
Defined.

(** ** Runs of the model on the scenarios of the specification *)

Example scenario_A_parse :
  parse_squeue_output
    (unlines ["JOBID|NAME|USER|ACCOUNT"; "1|build|alice|phys01"])
  = Ok [[("JOBID", "1"); ("NAME", "build"); ("USER", "alice");
         ("ACCOUNT", "phys01")]].
Proof. reflexivity. Qed.

Example scenario_A_project :
  project_formatter ascii_upper sample_config
    [("JOBID", "1"); ("NAME", "build"); ("USER", "alice");
     ("ACCOUNT", "phys01")]
  = Ok "📜 計畫ID：PHYS01(Physics)".
Proof. reflexivity. Qed.

Example scenario_B_project :
  project_formatter ascii_upper {| project_map := []; user_map := [] |}
    [("JOBID", "2"); ("NAME", ""); ("USER", "bob"); ("ACCOUNT", "unknown01")]
  = Ok "📜 計畫ID：UNKNOWN01".
Proof. reflexivity. Qed.

Example scenario_C_report :
  get_blocks ascii_upper sample_time sample_jobs sample_config
  = Ok (first_blocks sample_time
        ++ flat_map user_group_blocks
             (map (group_node ascii_upper sample_config)
                  [ ("alice", [sample_job "1" "build" "alice" "phys01"]);
                    ("bob", [sample_job "2" "" "bob" "unknown01"]);
                    ("alice", [sample_job "3" "train" "alice" "PHYS01"]) ]))%list.
Proof. vm_compute. reflexivity. Qed.

Example scenario_D_header_only :
  parse_squeue_output "JOBID|NAME|USER|ACCOUNT" = Ok []
  /\ get_blocks ascii_upper sample_time [] sample_config
     = Ok (first_blocks sample_time).
Proof. split; reflexivity. Qed.

(** * Further properties of the code *)

(** ** Joining and splitting *)

Lemma split_no_sep (sep : ascii) (s : string) :
  has_char sep s = false -> split sep s = [s].
Proof.
  induction s as [|c s IH]; simpl; [reflexivity|].
  destruct (Ascii.eqb c sep); simpl; [discriminate|].
  intros H. now rewrite (IH H).
Qed.

Lemma split_append_sep (sep : ascii) (s rest : string) :
  has_char sep s = false ->
  split sep (s ++ String sep rest) = s :: split sep rest.
Proof.
  induction s as [|c s IH]; simpl.
  - now rewrite Ascii.eqb_refl.
  - destruct (Ascii.eqb c sep); simpl; [discriminate|].
    intros H. now rewrite (IH H).
Qed.

Lemma split_join (sep : ascii) (l : list string) :
  l <> [] ->
  Forall (fun s => has_char sep s = false) l ->
  split sep (join (String sep EmptyString) l) = l.
Proof.
  intros Hne H. induction H as [|x l Hx Hl IH]; [congruence|].
  destruct l as [|y l].
  - simpl. now apply split_no_sep.
  - change (join (String sep EmptyString) (x :: y :: l))
      with (x ++ String sep (join (String sep EmptyString) (y :: l))).
    rewrite (split_append_sep _ _ _ Hx), IH; [reflexivity | discriminate].
Qed.

Lemma has_char_append (c : ascii) (s1 s2 : string) :
  has_char c (s1 ++ s2) = has_char c s1 || has_char c s2.
Proof.
  induction s1 as [|c' s1 IH]; simpl; [reflexivity|].
  now rewrite IH, orb_assoc.
Qed.

Lemma has_char_join (c : ascii) (sep : string) (l : list string) :
  has_char c sep = false ->
  Forall (fun s => has_char c s = false) l ->
  has_char c (join sep l) = false.
Proof.
  intros Hsep H. induction H as [|x l Hx Hl IH]; [reflexivity|].
  destruct l as [|y l]; [exact Hx|].
  change (join sep (x :: y :: l)) with (x ++ sep ++ join sep (y :: l)).
  now rewrite !has_char_append, Hx, Hsep, IH.
Qed.

(** ** The command *)

(** X1. [build_command] gives six arguments, the last being the account
    list: without project its account list is empty; otherwise, when no
    account code holds a comma, splitting the list on commas gives back the
    keys of the project map in their order. *)
Theorem build_command_accounts (config : Config) :
  (project_map config = [] ->
   build_command config = ["squeue"; "-a"; "-o"; "%all"; "-A"; EmptyString])
  /\ (project_map config <> [] ->
      Forall (fun k => has_char comma k = false)
             (dict_keys (project_map config)) ->
      exists account_list,
        build_command config
        = ["squeue"; "-a"; "-o"; "%all"; "-A"; account_list]
        /\ split comma account_list = dict_keys (project_map config)).
Proof.
  unfold build_command. split.
  - intros ->. reflexivity.
  - intros Hne Hc. eexists. split; [reflexivity|].
    apply (split_join comma); [|exact Hc].
    destruct (project_map config); [congruence | discriminate].
Qed.

Lemma build_command_accounts_witness :
  exists account_list,
    build_command {| project_map := [("PHYS01", "Physics"); ("chem02", "Chem")];
                     user_map := [] |}
    = ["squeue"; "-a"; "-o"; "%all"; "-A"; account_list]
    /\ split comma account_list = ["PHYS01"; "chem02"].
Proof.
  apply (proj2 (build_command_accounts
                  {| project_map := [("PHYS01", "Physics"); ("chem02", "Chem")];
                     user_map := [] |})).
  - discriminate.
  - repeat constructor.
Defined.

(** ** Parsing the text of a table *)

Lemma is_cell_pipe (c : string) : is_cell c = true -> has_char pipe c = false.
Proof.
  unfold is_cell. intros H. apply andb_true_iff in H as [H _].
  now apply negb_true_iff in H.
Qed.

Lemma is_cell_newline (c : string) :
  is_cell c = true -> has_char newline c = false.
Proof.
  unfold is_cell. intros H. apply andb_true_iff in H as [_ H].
  now apply negb_true_iff in H.
Qed.

Lemma row_line (row : list string) :
  row <> [] ->
  Forall (fun c => is_cell c = true) row ->
  split pipe (join "|" row) = row
  /\ has_char newline (join "|" row) = false.
Proof.
  intros Hne Hc. split.
  - apply (split_join pipe); [exact Hne|].
    eapply Forall_impl; [|exact Hc]. apply is_cell_pipe.
  - apply has_char_join; [reflexivity|].
    eapply Forall_impl; [|exact Hc]. apply is_cell_newline.
Qed.

(** X2. Parsing inverts the layout of a table: for a header of pairwise
    distinct names and rows of as many cells, no cell holding a pipe or a
    line break, and a text that white space neither begins nor ends,
    [parse_squeue_output] of the text of the table returns, for each row in
    order, the names of the header paired with the cells of the row. *)
Theorem parse_table_text (header : list string) (rows : list (list string)) :
  header <> [] ->
  NoDup header ->
  Forall (fun c => is_cell c = true) header ->
  Forall (fun row => List.length row = List.length header
                     /\ Forall (fun c => is_cell c = true) row) rows ->
  strip (table_text header rows) = table_text header rows ->
  parse_squeue_output (table_text header rows)
  = Ok (map (combine header) rows).
Proof.
  intros Hne Hnd Hh Hrows Hstrip.
  destruct (row_line header Hne Hh) as [Hsplit Hnl].
  assert (Hrow : forall row, In row rows ->
                   split pipe (join "|" row) = row
                   /\ has_char newline (join "|" row) = false).
  { intros row Hin. rewrite Forall_forall in Hrows.
    destruct (Hrows row Hin) as [Hlen Hc]. apply row_line; [|exact Hc].
    intros ->. destruct header; [congruence | discriminate]. }
  assert (Hlines : split newline (strip (table_text header rows))
                   = join "|" header :: map (join "|") rows).
  { rewrite Hstrip. unfold table_text, unlines.
    apply (split_join newline); [discriminate|].
    constructor; [exact Hnl|]. apply Forall_forall. intros l Hl.
    apply in_map_iff in Hl as (row & <- & Hin). now apply Hrow. }
  rewrite (parse_squeue_output_lines _ _ _ Hlines), Hsplit, map_map.
  f_equal. apply map_ext_in. intros row Hin.
  rewrite (parse_line_nodup _ _ Hnd), (proj1 (Hrow row Hin)).
  rewrite Forall_forall in Hrows. destruct (Hrows row Hin) as [Hlen _].
  rewrite Hlen, firstn_all. now rewrite <- Hlen, firstn_all.
Qed.

Lemma parse_table_text_witness :
  parse_squeue_output
    (table_text ["JOBID"; "NAME"; "USER"]
                [["1"; "build"; "alice"]; ["2"; ""; "bob"]])
  = Ok (map (combine ["JOBID"; "NAME"; "USER"])
            [["1"; "build"; "alice"]; ["2"; ""; "bob"]]).
Proof.
  apply parse_table_text.
  - discriminate.
  - distinct_strings.
  - repeat constructor.
  - repeat constructor.
  - reflexivity.
Defined.

(** ** White space around the output *)

Lemma is_space1_small (c : ascii) :
  is_space1 c = true -> nat_of_ascii c <= 32.
Proof.
  unfold is_space1, byte_in. intros H.
  apply orb_true_iff in H as [H|H]; apply andb_true_iff in H as [_ H];
    apply Nat.leb_le in H; lia.
Qed.

Lemma is_space2_second (c1 c : ascii) :
  is_space1 c = true -> is_space2 c1 c = false.
Proof.
  intros H. apply is_space1_small in H. unfold is_space2.
  destruct (Nat.eqb_spec (nat_of_ascii c) 133) as [E|_]; [lia|].
  destruct (Nat.eqb_spec (nat_of_ascii c) 160) as [E|_]; [lia|].
  apply andb_false_r.
Qed.

Lemma is_space3_third (c1 c2 c : ascii) :
  is_space1 c = true -> is_space3 c1 c2 c = false.
Proof.
  intros H. apply is_space1_small in H. unfold is_space3, byte_in.
  destruct (Nat.eqb_spec (nat_of_ascii c) 128) as [E|_]; [lia|].
  destruct (Nat.eqb_spec (nat_of_ascii c) 168) as [E|_]; [lia|].
  destruct (Nat.eqb_spec (nat_of_ascii c) 169) as [E|_]; [lia|].
  destruct (Nat.eqb_spec (nat_of_ascii c) 175) as [E|_]; [lia|].
  destruct (Nat.eqb_spec (nat_of_ascii c) 159) as [E|_]; [lia|].
  destruct (Nat.leb_spec 128 (nat_of_ascii c)) as [E|_]; [lia|].
  cbn [andb orb]. rewrite !andb_false_r. reflexivity.
Qed.

(** White space of one byte at the end of a string is stripped from the
    left only when the string is blank. *)
Lemma lstrip_snoc (c : ascii) (s : string) :
  is_space1 c = true ->
  lstrip (s ++ String c EmptyString)
  = if is_blank s then EmptyString else lstrip s ++ String c EmptyString.
Proof.
  intros Hc.
  assert (H : forall n s, String.length s <= n ->
            lstrip (s ++ String c EmptyString)
            = if is_blank s then EmptyString
              else lstrip s ++ String c EmptyString).
  { clear s. induction n as [|n IH]; intros s Hn.
    - destruct s; [|simpl in Hn; lia]. simpl. now rewrite Hc.
    - destruct s as [|c1 s1]; [simpl; now rewrite Hc|].
      simpl in Hn. unfold is_blank.
      cbn [append lstrip]. destruct (is_space1 c1) eqn:E1.
      { apply IH. lia. }
      destruct s1 as [|c2 s2].
      { cbn [append]. now rewrite (is_space2_second c1 c Hc). }
      simpl in Hn. cbn [append]. destruct (is_space2 c1 c2) eqn:E2.
      { apply IH. lia. }
      destruct s2 as [|c3 s3].
      { cbn [append]. now rewrite (is_space3_third c1 c2 c Hc). }
      simpl in Hn. cbn [append]. destruct (is_space3 c1 c2 c3) eqn:E3.
      { apply IH. lia. }
      reflexivity. }
  apply (H (String.length s)). lia.
Qed.

Lemma is_blank_snoc (c : ascii) (s : string) :
  is_space1 c = true -> is_blank (s ++ String c EmptyString) = is_blank s.
Proof.
  intros Hc. unfold is_blank at 1. rewrite (lstrip_snoc c s Hc).
  destruct (is_blank s) eqn:E; [reflexivity|].
  unfold is_blank in E. destruct (lstrip s); [discriminate | reflexivity].
Qed.

Lemma rstrip_snoc (c : ascii) (s : string) :
  is_space1 c = true -> rstrip (s ++ String c EmptyString) = rstrip s.
Proof.
  intros Hc. induction s as [|c0 s IH].
  - simpl. unfold is_blank. simpl. now rewrite Hc.
  - cbn [append rstrip].
    change (String c0 (s ++ String c EmptyString))
      with (String c0 s ++ String c EmptyString).
    rewrite (is_blank_snoc c (String c0 s) Hc), IH. reflexivity.
Qed.

Lemma strip_snoc (c : ascii) (s : string) :
  is_space1 c = true -> strip (s ++ String c EmptyString) = strip s.
Proof.
  intros Hc. unfold strip. rewrite (lstrip_snoc c s Hc).
  destruct (is_blank s) eqn:E.
  - unfold is_blank in E. destruct (lstrip s); [reflexivity | discriminate].
  - now apply rstrip_snoc.
Qed.

Lemma strip_blank_suffix (ws s : string) :
  ascii_blank ws = true -> strip (s ++ ws) = strip s.
Proof.
  revert s; induction ws as [|c ws IH]; intros s H.
  - now rewrite string_append_nil.
  - simpl in H. apply andb_true_iff in H as [Hc Hws].
    change (String c ws) with (String c EmptyString ++ ws).
    rewrite <- string_append_assoc, (IH _ Hws). now apply strip_snoc.
Qed.

Lemma strip_blank_prefix (ws s : string) :
  ascii_blank ws = true -> strip (ws ++ s) = strip s.
Proof.
  induction ws as [|c ws IH]; intros H; [reflexivity|].
  simpl in H. apply andb_true_iff in H as [Hc Hws].
  unfold strip in *. cbn [append lstrip]. rewrite Hc. now apply IH.
Qed.

(** X3. White space around the output does not count: the output with ASCII
    white space (blanks, tabs, line breaks) before and after it parses to
    the same records; so does an output with the final line break that the
    command prints. *)
Theorem parse_squeue_output_blank_margins (ws1 ws2 output : string) :
  ascii_blank ws1 = true ->
  ascii_blank ws2 = true ->
  parse_squeue_output (ws1 ++ output ++ ws2) = parse_squeue_output output.
Proof.
  intros H1 H2. unfold parse_squeue_output.
  now rewrite (strip_blank_prefix _ _ H1), (strip_blank_suffix _ _ H2).
Qed.

Lemma parse_squeue_output_blank_margins_witness :
  parse_squeue_output
    (" " ++ unlines ["JOBID|NAME"; "1|build"] ++ String newline EmptyString)
  = parse_squeue_output (unlines ["JOBID|NAME"; "1|build"]).
Proof.
  apply parse_squeue_output_blank_margins; reflexivity.
Defined.

(** ** The records of one output *)

Lemma dict_of_keys (pairs : list (string * string)) (k : string) :
  In k (dict_keys (dict_of pairs)) <-> In k (map fst pairs).
Proof.
  rewrite <- dict_get_in_keys, dict_of_get.
  pose proof (assoc_last_none pairs k) as H.
  destruct (assoc_last pairs k) as [v|].
  - split; [|discriminate]. intros _.
    destruct (in_dec string_dec k (map fst pairs)) as [Hin|Hn]; [exact Hin|].
    apply H in Hn. discriminate.
  - split; [congruence|]. intros Hin. exfalso. now apply (proj1 H).
Qed.

Lemma parse_line_keys (header : list string) (l k : string) :
  In k (dict_keys (parse_line header l))
  <-> In k (firstn (List.length (split pipe l)) header).
Proof.
  unfold parse_line, zip. now rewrite dict_of_keys, map_fst_combine.
Qed.

Lemma parse_line_values (header : list string) (l k v : string) :
  dict_get (parse_line header l) k = Some v -> In v (split pipe l).
Proof.
  unfold parse_line, zip. rewrite dict_of_get. intros H.
  apply assoc_last_in in H. now apply in_combine_r in H.
Qed.

Lemma parse_line_not_nil (header : list string) (l : string) :
  header <> [] -> parse_line header l <> [].
Proof.
  intros Hh Hnil.
  destruct header as [|h0 header]; [congruence|].
  destruct (split pipe l) as [|f0 fields] eqn:E; [now apply split_not_nil in E|].
  assert (Hin : In h0 (dict_keys (parse_line (h0 :: header) l))).
  { apply parse_line_keys. rewrite E. now left. }
  rewrite Hnil in Hin. exact Hin.
Qed.

(** X4. The records of one output are dictionaries over one header: for
    every data line the record has no key twice, its keys are the names of
    the columns that the line reaches, each of its values is a field of the
    line, and it is never empty (the first column is always bound). *)
Theorem parse_squeue_output_records
  (output hline : string) (dlines : list string) :
  split newline (strip output) = hline :: dlines ->
  exists jobs,
    parse_squeue_output output = Ok jobs
    /\ Forall2 (fun l job =>
                  dict_wf job
                  /\ job <> []
                  /\ (forall k,
                         In k (dict_keys job)
                         <-> In k (firstn (List.length (split pipe l))
                                          (split pipe hline)))
                  /\ (forall k v,
                         dict_get job k = Some v -> In v (split pipe l)))
               dlines jobs.
Proof.
  intros Hlines.
  exists (map (parse_line (split pipe hline)) dlines).
  split; [now apply parse_squeue_output_lines|].
  apply Forall2_map_intro. intros l _.
  split; [apply dict_of_wf|].
  split; [apply parse_line_not_nil, split_not_nil|].
  split; [apply parse_line_keys | apply parse_line_values].
Qed.

Lemma parse_squeue_output_records_witness :
  exists jobs,
    parse_squeue_output (unlines ["A|B|A"; "1|2|3"; ""; "5|6"]) = Ok jobs
    /\ Forall2 (fun l job =>
                  dict_wf job
                  /\ job <> []
                  /\ (forall k,
                         In k (dict_keys job)
                         <-> In k (firstn (List.length (split pipe l))
                                          (split pipe "A|B|A")))
                  /\ (forall k v,
                         dict_get job k = Some v -> In v (split pipe l)))
               ["1|2|3"; ""; "5|6"] jobs.
Proof.
  apply (parse_squeue_output_records
           (unlines ["A|B|A"; "1|2|3"; ""; "5|6"]) "A|B|A"
           ["1|2|3"; ""; "5|6"]).
  reflexivity.
Defined.

(** ** The first missing field *)

Section GroupbyFirstRaise.
Context {A S : Type}.
Variable key' : A -> result string.
Variable before' : string -> S -> result S.
Variable body' : A -> S -> result S.
Variable after' : S -> result S.
Variable key : A -> string.
Variable before : string -> S -> S.
Variable body : A -> S -> S.
Variable after : S -> S.

Hypothesis before_total : forall k s, before' k s = Ok (before k s).
Hypothesis after_total : forall s, after' s = Ok (after s).

(** The loop raises what the first element that raises does, in its key or
    else in its body. *)
Lemma for_groupby_first_raise (pre : list A) (x : A) (post : list A)
  (tgt : option string) (s : S) (e : exception) :
  Forall (fun x => key' x = Ok (key x)
                   /\ forall s, body' x s = Ok (body x s)) pre ->
  key' x = Raise e
  \/ ((exists k, key' x = Ok k) /\ forall s, body' x s = Raise e) ->
  for_groupby key' before' body' after' tgt (pre ++ x :: post) s = Raise e.
Proof.
  intros Hpre Hx. revert tgt s.
  induction Hpre as [|y pre [Hk Hb] _ IH]; intros tgt s; simpl.
  - destruct Hx as [Hk|[(k & Hk) Hb]]; rewrite Hk; simpl; [reflexivity|].
    destruct (in_group tgt k).
    + now rewrite Hb.
    + destruct tgt; simpl; rewrite ?after_total; simpl;
        rewrite before_total; simpl; now rewrite Hb.
  - rewrite Hk. simpl. destruct (in_group tgt (key y)).
    + rewrite Hb. simpl. apply IH.
    + destruct tgt; simpl; rewrite ?after_total; simpl;
        rewrite before_total; simpl; rewrite Hb; simpl; apply IH.
Qed.
End GroupbyFirstRaise.

Lemma dict_item_missing (j : Job) (k : string) :
  dict_mem j k = false -> dict_item j k = Raise (KeyError k).
Proof.
  rewrite dict_mem_get. unfold dict_item.
  destruct (dict_get j k); [discriminate | reflexivity].
Qed.

Lemma first_missing_raises (upper : string -> string) (config : Config)
  (j : Job) (k : string) :
  first_missing j = Some k ->
  user_key j = Raise (KeyError k)
  \/ ((exists u, user_key j = Ok u)
      /\ forall s, job_body upper config j s = Raise (KeyError k)).
Proof.
  unfold first_missing, report_fields. cbn [find]. unfold user_key.
  destruct (dict_mem j "USER") eqn:EU; cbn [negb].
  2:{ intros [= <-]. left. now apply dict_item_missing. }
  intros H. right. split; [rewrite (dict_item_field j _ EU); eauto|].
  intros s. unfold job_body, get_formatters, get_simple_formmatter,
    project_formatter. cbn [mapM].
  destruct (dict_mem j "NAME") eqn:EN; cbn [negb] in H.
  2:{ injection H as H. subst k. rewrite (dict_item_missing j _ EN). reflexivity. }
  rewrite (dict_item_field j _ EN). cbn [bind mapM].
  destruct (dict_mem j "JOBID") eqn:E1; cbn [negb] in H.
  2:{ injection H as H. subst k. rewrite (dict_item_missing j _ E1). reflexivity. }
  rewrite (dict_item_field j _ E1). cbn [bind].
  destruct (dict_mem j "PARTITION") eqn:E2; cbn [negb] in H.
  2:{ injection H as H. subst k. rewrite (dict_item_missing j _ E2). reflexivity. }
  rewrite (dict_item_field j _ E2). cbn [bind].
  destruct (dict_mem j "NODES") eqn:E3; cbn [negb] in H.
  2:{ injection H as H. subst k. rewrite (dict_item_missing j _ E3). reflexivity. }
  rewrite (dict_item_field j _ E3). cbn [bind].
  destruct (dict_mem j "START_TIME") eqn:E4; cbn [negb] in H.
  2:{ injection H as H. subst k. rewrite (dict_item_missing j _ E4). reflexivity. }
  rewrite (dict_item_field j _ E4). cbn [bind].
  destruct (dict_mem j "TIME") eqn:E5; cbn [negb] in H.
  2:{ injection H as H. subst k. rewrite (dict_item_missing j _ E5). reflexivity. }
  rewrite (dict_item_field j _ E5). cbn [bind].
  destruct (dict_mem j "ACCOUNT") eqn:E6; cbn [negb] in H; [discriminate|].
  injection H as H. subst k. rewrite (dict_item_missing j _ E6). reflexivity.
Qed.

Lemma first_missing_complete (j : Job) :
  first_missing j = None <-> complete_job j = true.
Proof.
  unfold first_missing, complete_job. split.
  - intros H. apply forallb_forall. intros k Hk.
    pose proof (find_none _ _ H k Hk) as Hn. now apply negb_false_iff in Hn.
  - intros H. rewrite forallb_forall in H.
    destruct (find _ report_fields) as [k|] eqn:E; [|reflexivity].
    apply find_some in E as [Hin Hn]. rewrite (H k Hin) in Hn. discriminate.
Qed.

(** X5. The key of the error of [get_blocks]: when the records before a
    record have the fields of the report and the record lacks one, the
    report raises the missing-key error of the first field that this record
    lacks, in the order USER, NAME, JOBID, PARTITION, NODES, START_TIME,
    TIME, ACCOUNT, whatever the records after it are. *)
Theorem get_blocks_first_missing
  (upper : string -> string) (config : Config) (now : struct_time)
  (pre : list Job) (j : Job) (post : list Job) (k : string) :
  Forall (fun j => complete_job j = true) pre ->
  first_missing j = Some k ->
  get_blocks upper now (pre ++ j :: post) config = Raise (KeyError k).
Proof.
  intros Hpre Hk. unfold get_blocks.
  apply (for_groupby_first_raise
           user_key (group_header config) (job_body upper config) group_footer
           (fun j => field j "USER")
           (fun u s => s ++ [section (mrkdwn ("🤪 *"
                               ++ labelled (user_map config) u
                               ++ "* 有以下任務正在運行："))])%list
           (fun j s => s ++ job_node_blocks (job_node upper config j))%list
           (fun s => s ++ [divider])%list).
  - intros u s. apply group_header_ok.
  - reflexivity.
  - eapply Forall_impl; [|exact Hpre]. intros j' Hj'. split.
    + now apply user_key_complete.
    + intros s. now apply job_body_complete.
  - now apply first_missing_raises.
Qed.

Lemma get_blocks_first_missing_witness :
  get_blocks ascii_upper sample_time
    ([sample_job "1" "build" "alice" "phys01"]
     ++ [("USER", "bob"); ("NAME", "x"); ("JOBID", "2"); ("TIME", "0:01")]
     :: [[("JOBID", "3")]])
    sample_config
  = Raise (KeyError "PARTITION").
Proof.
  apply get_blocks_first_missing.
  - repeat constructor.
  - reflexivity.
Defined.

Lemma first_incomplete (jobs : list Job) :
  Forall (fun j => complete_job j = true) jobs
  \/ exists pre j post,
       jobs = (pre ++ j :: post)%list
       /\ Forall (fun j => complete_job j = true) pre
       /\ complete_job j = false.
Proof.
  induction jobs as [|j jobs IH]; [left; constructor|].
  destruct (complete_job j) eqn:E.
  - destruct IH as [H|(pre & j' & post & -> & Hpre & Hj')].
    + left. now constructor.
    + right. exists (j :: pre), j', post.
      split; [reflexivity|]. split; [now constructor | exact Hj'].
  - right. exists [], j, jobs. split; [reflexivity|]. split; [constructor | exact E].
Qed.

(** X6. [get_blocks] either returns the report, when every record has the
    eight fields that it reads, or raises the missing-key error of one of
    these eight fields: the first that the first record without all of them
    lacks.  It raises nothing else. *)
Theorem get_blocks_report_or_key_error
  (upper : string -> string) (config : Config) (now : struct_time)
  (jobs : list Job) :
  (Forall (fun j => complete_job j = true) jobs
   /\ get_blocks upper now jobs config
      = Ok (assemble (build upper config jobs) now))
  \/ (exists pre j post k,
         jobs = (pre ++ j :: post)%list
         /\ Forall (fun j => complete_job j = true) pre
         /\ first_missing j = Some k
         /\ In k report_fields
         /\ get_blocks upper now jobs config = Raise (KeyError k)).
Proof.
  destruct (first_incomplete jobs) as [H|(pre & j & post & -> & Hpre & Hj)].
  - left. split; [exact H | now apply get_blocks_complete].
  - right. destruct (first_missing j) as [k|] eqn:E.
    + exists pre, j, post, k. repeat split; try assumption.
      * unfold first_missing in E. now apply find_some in E as [Hin _].
      * now apply get_blocks_first_missing.
    + apply first_missing_complete in E. congruence.
Qed.

(** ** The routine: from the output of the command to the message *)

Lemma complete_job_keys (j : Job) :
  complete_job j = true <-> incl report_fields (dict_keys j).
Proof.
  unfold complete_job. rewrite forallb_forall. split; intros H k Hk.
  - apply dict_get_in_keys. specialize (H k Hk). rewrite dict_mem_get in H.
    destruct (dict_get j k); [discriminate | discriminate].
  - rewrite dict_mem_get. apply H, dict_get_in_keys in Hk.
    destruct (dict_get j k); [reflexivity | congruence].
Qed.

Lemma parse_line_complete (header : list string) (l : string) :
  complete_job (parse_line header l) = true
  <-> incl report_fields (firstn (List.length (split pipe l)) header).
Proof.
  rewrite complete_job_keys. split; intros H k Hk.
  - now apply parse_line_keys, H.
  - now apply parse_line_keys, H.
Qed.

Lemma build_sizes (upper : string -> string) (config : Config)
  (jobs : list Job) :
  list_sum (map (fun g => List.length (group_jobs g)) (build upper config jobs))
  = List.length jobs.
Proof.
  rewrite <- (length_map (job_node upper config) jobs), <- build_jobs.
  now rewrite length_concat, map_map.
Qed.

Lemma assemble_count (upper : string -> string) (config : Config)
  (now : struct_time) (jobs : list Job) :
  count_job_nodes (assemble (build upper config jobs) now) = List.length jobs.
Proof.
  unfold assemble.
  rewrite count_job_nodes_app, count_job_nodes_groups, build_sizes.
  reflexivity.
Qed.

Lemma routine_message_lines (upper : string -> string) (now : struct_time)
  (output channel hline : string) (dlines : list string) (config : Config) :
  utf8_valid output = true ->
  split newline (strip output) = hline :: dlines ->
  routine_message upper now output channel config
  = (blocks <- get_blocks upper now
                 (map (parse_line (split pipe hline)) dlines) config ;;
     Ok {| msg_channel := channel;
           msg_text := "📋 TWCC HPC 任務例行檢查";
           msg_blocks := blocks |}).
Proof.
  intros Hv H. unfold routine_message, decode. rewrite Hv. cbn [bind].
  now rewrite (parse_squeue_output_lines _ _ _ H).
Qed.

(** X7. When the bytes of the output are well-formed UTF-8 and every data
    line of the output reaches the eight columns that the report reads
    (their names are among the names of the columns for which the line has
    a field), the routine posts a message: to the channel, with the fixed
    text, and with the report assembled from the parsed records, which has
    one job node for each data line. *)
Theorem routine_message_report
  (upper : string -> string) (now : struct_time)
  (output channel hline : string) (dlines : list string) (config : Config) :
  utf8_valid output = true ->
  split newline (strip output) = hline :: dlines ->
  (forall l, In l dlines ->
     incl report_fields
          (firstn (List.length (split pipe l)) (split pipe hline))) ->
  exists jobs,
    parse_squeue_output output = Ok jobs
    /\ routine_message upper now output channel config
       = Ok {| msg_channel := channel;
               msg_text := "📋 TWCC HPC 任務例行檢查";
               msg_blocks := assemble (build upper config jobs) now |}
    /\ count_job_nodes (assemble (build upper config jobs) now)
       = List.length dlines.
Proof.
  intros Hvalid Hlines Hreach.
  exists (map (parse_line (split pipe hline)) dlines).
  assert (Hc : Forall (fun j => complete_job j = true)
                      (map (parse_line (split pipe hline)) dlines)).
  { apply Forall_forall. intros j Hj.
    apply in_map_iff in Hj as (l & <- & Hl).
    now apply parse_line_complete, Hreach. }
  split; [now apply parse_squeue_output_lines|].
  split.
  - rewrite (routine_message_lines _ _ _ _ _ _ _ Hvalid Hlines).
    now rewrite (get_blocks_complete _ _ _ _ Hc).
  - rewrite assemble_count. apply length_map.
Qed.

Lemma routine_message_report_witness :
  exists jobs,
    parse_squeue_output
      (unlines ["EXTRA|USER|NAME|JOBID|PARTITION|NODES|START_TIME|TIME|ACCOUNT";
                "x|alice|build|1|gp4d|2|09:00|1:05|phys01|dropped"]) = Ok jobs
    /\ routine_message ascii_upper sample_time
         (unlines ["EXTRA|USER|NAME|JOBID|PARTITION|NODES|START_TIME|TIME|ACCOUNT";
                   "x|alice|build|1|gp4d|2|09:00|1:05|phys01|dropped"])
         "C0123" sample_config
       = Ok {| msg_channel := "C0123";
               msg_text := "📋 TWCC HPC 任務例行檢查";
               msg_blocks := assemble (build ascii_upper sample_config jobs)
                                      sample_time |}
    /\ count_job_nodes (assemble (build ascii_upper sample_config jobs)
                                 sample_time)
       = 1.
Proof.
  apply (routine_message_report ascii_upper sample_time _ "C0123"
           "EXTRA|USER|NAME|JOBID|PARTITION|NODES|START_TIME|TIME|ACCOUNT"
           ["x|alice|build|1|gp4d|2|09:00|1:05|phys01|dropped"]).
  - reflexivity.
  - reflexivity.
  - intros l [<-|[]] k Hk. vm_compute in Hk. vm_compute. tauto.
Defined.

Lemma NoDup_report_fields : NoDup report_fields.
Proof. unfold report_fields. distinct_strings. Qed.

Lemma get_blocks_incomplete (upper : string -> string) (config : Config)
  (now : struct_time) (jobs : list Job) (j : Job) :
  In j jobs -> complete_job j = false ->
  exists k, In k report_fields
            /\ get_blocks upper now jobs config = Raise (KeyError k).
Proof.
  intros Hin Hj.
  destruct (first_incomplete jobs) as [H|(pre & j' & post & -> & Hpre & Hj')].
  - rewrite Forall_forall in H. rewrite (H j Hin) in Hj. discriminate.
  - destruct (first_missing j') as [k|] eqn:E.
    + exists k. split.
      * unfold first_missing in E. now apply find_some in E as [Hk _].
      * now apply get_blocks_first_missing.
    + apply first_missing_complete in E. congruence.
Qed.

(** X8. In an output of well-formed UTF-8 bytes, a data line that does not
    reach one of the eight columns of the report (the header lacks the
    name, or the line ends before the column) makes the routine raise a
    missing-key error of one of the eight fields: no message is posted,
    although the parser accepted the line.  So does, in particular, a data
    line of fewer than eight fields, such as an empty line inside the
    output. *)
Theorem routine_message_short_line
  (upper : string -> string) (now : struct_time)
  (output channel hline l : string) (dlines : list string) (config : Config) :
  utf8_valid output = true ->
  split newline (strip output) = hline :: dlines ->
  In l dlines ->
  (exists k, In k report_fields
             /\ ~ In k (firstn (List.length (split pipe l)) (split pipe hline)))
  \/ List.length (split pipe l) < 8 ->
  exists k,
    In k report_fields
    /\ routine_message upper now output channel config = Raise (KeyError k).
Proof.
  intros Hvalid Hlines Hl Hshort.
  assert (Hj : complete_job (parse_line (split pipe hline) l) = false).
  { destruct (complete_job (parse_line (split pipe hline) l)) eqn:E;
      [exfalso | reflexivity].
    destruct Hshort as [(k & Hk & Hn)|Hlen].
    - apply Hn. now apply (proj1 (parse_line_complete _ _) E).
    - apply complete_job_keys in E.
      pose proof (NoDup_incl_length NoDup_report_fields E) as Hle.
      pose proof (parse_line_length (split pipe hline) l) as Hle'.
      unfold dict_keys in Hle. rewrite length_map in Hle.
      change (List.length report_fields) with 8 in Hle. lia. }
  destruct (get_blocks_incomplete upper config now
              (map (parse_line (split pipe hline)) dlines)
              (parse_line (split pipe hline) l)) as (k & Hk & Hr).
  - now apply in_map.
  - exact Hj.
  - exists k. split; [exact Hk|].
    rewrite (routine_message_lines _ _ _ _ _ _ _ Hvalid Hlines), Hr.
    reflexivity.
Qed.

Lemma routine_message_short_line_witness :
  exists k,
    In k report_fields
    /\ routine_message ascii_upper sample_time
         (unlines ["USER|NAME|JOBID|PARTITION|NODES|START_TIME|TIME|ACCOUNT";
                   "alice|build|1|gp4d|2|09:00|1:05|phys01"; "";
                   "bob|x|2|gp4d|1|09:10|0:55|phys01"])
         "C0123" sample_config
       = Raise (KeyError k).
Proof.
  apply (routine_message_short_line ascii_upper sample_time _ "C0123"
           "USER|NAME|JOBID|PARTITION|NODES|START_TIME|TIME|ACCOUNT" ""
           ["alice|build|1|gp4d|2|09:00|1:05|phys01"; "";
            "bob|x|2|gp4d|1|09:10|0:55|phys01"]).
  - reflexivity.
  - reflexivity.
  - simpl. tauto.
  - right. simpl. lia.
Defined.




(** ** The size of the report *)

Lemma groupby_length {A} (l : list (string * A)) :
  List.length (groupby l) <= List.length l.
Proof.
  induction l as [|[k x] l IH]; simpl; [lia|].
  destruct (groupby l) as [|[k' g] gs]; simpl in *; [lia|].
  destruct (String.eqb k k'); simpl; lia.
Qed.

Lemma job_nodes_length (ns : list JobNode) :
  List.length (flat_map job_node_blocks ns) = 2 * List.length ns.
Proof.
  induction ns as [|n ns IH]; [reflexivity|].
  cbn [flat_map]. rewrite length_app, IH. simpl. lia.
Qed.

Lemma user_groups_length (gs : list UserGroup) :
  List.length (flat_map user_group_blocks gs)
  = 2 * List.length gs
    + 2 * list_sum (map (fun g => List.length (group_jobs g)) gs).
Proof.
  induction gs as [|g gs IH]; [reflexivity|].
  cbn [flat_map map list_sum]. rewrite length_app, IH.
  unfold user_group_blocks. cbn [List.length].
  rewrite length_app, job_nodes_length. simpl. lia.
Qed.

(** X10. The report of [n] records in [g] groups has [3 + 2 g + 2 n]
    blocks: three to open it, a label and a divider for each group, a title
    and a list of fields for each record; there are at most as many groups
    as records, so the report has at most [3 + 4 n] blocks. *)
Theorem get_blocks_length
  (upper : string -> string) (config : Config) (now : struct_time)
  (jobs : list Job) :
  Forall (fun j => complete_job j = true) jobs ->
  exists blocks,
    get_blocks upper now jobs config = Ok blocks
    /\ List.length blocks
       = 3 + 2 * List.length (user_groups jobs) + 2 * List.length jobs
    /\ List.length (user_groups jobs) <= List.length jobs
    /\ List.length blocks <= 3 + 4 * List.length jobs.
Proof.
  intros Hc. exists (assemble (build upper config jobs) now).
  assert (Hg : List.length (user_groups jobs) <= List.length jobs).
  { unfold user_groups.
    etransitivity; [apply groupby_length | now rewrite length_map]. }
  assert (Hlen : List.length (assemble (build upper config jobs) now)
                 = 3 + 2 * List.length (user_groups jobs)
                   + 2 * List.length jobs).
  { unfold assemble. rewrite length_app, user_groups_length, build_sizes.
    unfold build. rewrite length_map. reflexivity. }
  split; [now apply get_blocks_complete|].
  split; [exact Hlen|]. split; [exact Hg | lia].
Qed.

Lemma get_blocks_length_witness :
  exists blocks,
    get_blocks ascii_upper sample_time sample_jobs sample_config = Ok blocks
    /\ List.length blocks
       = 3 + 2 * List.length (user_groups sample_jobs)
         + 2 * List.length sample_jobs
    /\ List.length (user_groups sample_jobs) <= List.length sample_jobs
    /\ List.length blocks <= 3 + 4 * List.length sample_jobs.
Proof.
  apply get_blocks_length. repeat constructor.
Defined.

Lemma job_node_blocks_ok (upper : string -> string) (config : Config)
  (j : Job) :
  Forall fields_block_ok (job_node_blocks (job_node upper config j)).
Proof.
  unfold job_node_blocks. constructor; [exact I|]. constructor; [|constructor].
  simpl. split; [reflexivity|]. repeat constructor; eexists; reflexivity.
Qed.

(** X11. Every list of fields in a report has exactly eight text objects,
    all of them plain text with emoji; the other blocks hold no list of
    fields. *)
Theorem get_blocks_fields
  (upper : string -> string) (config : Config) (now : struct_time)
  (jobs : list Job) (blocks : list block) :
  get_blocks upper now jobs config = Ok blocks ->
  Forall fields_block_ok blocks.
Proof.
  intros H.
  assert (Hc : Forall (fun j => complete_job j = true) jobs)
    by (apply (get_blocks_ok_iff upper config now); eauto).
  rewrite (get_blocks_complete upper config now jobs Hc) in H.
  injection H as <-. unfold assemble. apply Forall_app. split.
  - repeat constructor.
  - apply Forall_flat_map. unfold build. apply Forall_forall.
    intros g Hg. apply in_map_iff in Hg as ([u js] & <- & _).
    rewrite user_group_blocks_node. apply Forall_app. split.
    + repeat constructor.
    + apply Forall_app. split; [|repeat constructor].
      apply Forall_flat_map, Forall_forall. intros j _.
      apply job_node_blocks_ok.
Qed.

Lemma get_blocks_fields_witness :
  Forall fields_block_ok
    (assemble (build ascii_upper sample_config sample_jobs) sample_time).
Proof.
  apply (get_blocks_fields ascii_upper sample_config sample_time sample_jobs).
  reflexivity.
Defined.

(** ** One user *)





(** ** Keys of the project map that differ in case only *)

(** X13. When several keys of the project map are equal to the account up
    to case, the project annotator shows the label of the last of them in
    the order of the map. *)
Theorem project_formatter_last_key
  (upper : string -> string) (config : Config) (job : Job)
  (account key label : string) (n : nat) :
  dict_get job "ACCOUNT" = Some account ->
  nth_error (project_map config) n = Some (key, label) ->
  upper key = upper account ->
  (forall n' key' label',
      n < n' -> nth_error (project_map config) n' = Some (key', label') ->
      upper key' <> upper account) ->
  project_formatter upper config job
  = Ok ("📜 計畫ID：" ++ upper account ++ "(" ++ label ++ ")").
Proof.
  intros Ha Hn Hk Hlast.
  rewrite (project_formatter_account _ _ _ _ Ha).
  assert (E : dict_get (upper_keys upper (project_map config)) (upper account)
              = Some label).
  { unfold upper_keys, dict_items. rewrite dict_of_get.
    apply assoc_last_nth. exists n. split.
    - rewrite nth_error_map, Hn. simpl. now rewrite Hk.
    - intros m v' Hm Hnth. rewrite nth_error_map in Hnth.
      destruct (nth_error (project_map config) m) as [[key' label']|] eqn:E';
        [|discriminate].
      simpl in Hnth. injection Hnth as Hkey' _.
      exact (Hlast m key' label' Hm E' Hkey'). }
  unfold labelled. now rewrite E.
Qed.

Lemma project_formatter_last_key_witness :
  project_formatter ascii_upper
    {| project_map := [("abc", "first"); ("xyz", "other"); ("ABC", "second")];
       user_map := [] |}
    [("ACCOUNT", "Abc")]
  = Ok ("📜 計畫ID：" ++ ascii_upper "Abc" ++ "(" ++ "second" ++ ")").
Proof.
  apply (project_formatter_last_key ascii_upper
           {| project_map := [("abc", "first"); ("xyz", "other");
                              ("ABC", "second")];
              user_map := [] |}
           [("ACCOUNT", "Abc")] "Abc" "ABC" "second" 2).
  - reflexivity.
  - reflexivity.
  - reflexivity.
  - intros [|[|[|n']]] key' label' Hlt Hnth; try lia.
    simpl in Hnth. destruct n'; discriminate.
Defined.

(** ** Runs of the decoder *)

Example utf8_valid_text :
  utf8_valid "📋 TWCC HPC 任務例行檢查" = true
  /\ utf8_valid (unlines ["JOBID|NAME"; "1|測試"]) = true.
Proof. split; reflexivity. Qed.

Example utf8_invalid_bytes :
  utf8_valid (String (ascii_of_nat 255) EmptyString) = false
  /\ utf8_valid (String (ascii_of_nat 192) (String (ascii_of_nat 128) "")) = false
  /\ utf8_valid (String (ascii_of_nat 237)
                   (String (ascii_of_nat 160) (String (ascii_of_nat 128) "")))
     = false
  /\ utf8_valid (String (ascii_of_nat 244)
                   (String (ascii_of_nat 144)
                      (String (ascii_of_nat 128)
                         (String (ascii_of_nat 128) ""))))
     = false
  /\ utf8_valid (String (ascii_of_nat 226) (String (ascii_of_nat 130) ""))
     = false.
Proof. repeat split; reflexivity. Qed.

Example routine_message_invalid_bytes :
  routine_message ascii_upper sample_time
    ("JOBID|NAME" ++ String (ascii_of_nat 255) EmptyString) "C0123"
    sample_config
  = Raise UnicodeDecodeError.
Proof. reflexivity. Qed.
